(** * Latent blending of [src/Encode_Image.py]

    A shallow embedding of the blending functions of [Encode_Image.py]
    (linear, slerp, barycentric and RBF blends of encoded latents) and the
    properties the specification states about them.

    Numbers.  A tensor element or a Python float is a [num]: a real number
    or one of the IEEE special values [+inf], [-inf], [NaN].  The special
    values follow the IEEE rules the code relies on ([0/0 = NaN],
    [x/0 = +-inf], [inf - inf = NaN], [0 * inf = NaN], ...).  Rounding and
    the sign of zero are not modelled: finite arithmetic is exact.

    Tensors.  A tensor is its shape together with its elements in row-major
    order, as torch stores a contiguous tensor.  Elementwise operations
    broadcast as torch does; the precision of a tensor is not modelled.

    Effects.  The [model] argument of the [images_encoding*] functions is a
    mutable object: the functions run in a state and exception monad over a
    world that holds the model (the precision of its VAE, its scaling
    factor, its encoder) and the trace of the calls made into the VAE.  The
    functions on latents ([weighted_slerp], [barycentric_interpolation],
    [rbf_interpolation]) take no model and are pure; they build new tensors
    and never write into their arguments.  Python's [assert] raises
    [AssertionError], which plays the part of the [InvalidArgument] of the
    specification. *)

From Stdlib Require Import String.
From Stdlib Require Import Reals Lra Lia List Bool Arith.
Import ListNotations.

Local Open Scope R_scope.

(** ** Numbers *)

Inductive num : Type :=
| Fin (r : R)
| PInf
| NInf
| NaN.

Definition zero : num := Fin 0.
Definition one : num := Fin 1.

Definition finite (x : num) : Prop := exists r, x = Fin r.

Definition Req_b (a b : R) : bool := if Req_dec_T a b then true else false.
Definition Rlt_b (a b : R) : bool := if Rlt_dec a b then true else false.
Definition Rle_b (a b : R) : bool := if Rle_dec a b then true else false.

Definition nneg (x : num) : num :=
  match x with
  | Fin a => Fin (- a)
  | PInf => NInf
  | NInf => PInf
  | NaN => NaN
  end.

Definition nadd (x y : num) : num :=
  match x, y with
  | NaN, _ | _, NaN => NaN
  | Fin a, Fin b => Fin (a + b)
  | PInf, NInf | NInf, PInf => NaN
  | PInf, _ | _, PInf => PInf
  | NInf, _ | _, NInf => NInf
  end.

Definition nsub (x y : num) : num := nadd x (nneg y).

(** The infinity of the sign of [b] when [pos], of the opposite sign
    otherwise; [NaN] for [b = 0]. *)
Definition inf_times (pos : bool) (b : R) : num :=
  if Req_b b 0 then NaN
  else if Bool.eqb pos (Rlt_b 0 b) then PInf else NInf.

Definition nmul (x y : num) : num :=
  match x, y with
  | NaN, _ | _, NaN => NaN
  | Fin a, Fin b => Fin (a * b)
  | PInf, Fin b | Fin b, PInf => inf_times true b
  | NInf, Fin b | Fin b, NInf => inf_times false b
  | PInf, PInf | NInf, NInf => PInf
  | PInf, NInf | NInf, PInf => NInf
  end.

Definition ndiv (x y : num) : num :=
  match x, y with
  | NaN, _ | _, NaN => NaN
  | Fin a, Fin b =>
      if Req_b b 0 then
        if Req_b a 0 then NaN else if Rlt_b 0 a then PInf else NInf
      else Fin (a / b)
  | Fin _, _ => Fin 0
  | PInf, Fin b => if Rle_b 0 b then PInf else NInf
  | NInf, Fin b => if Rle_b 0 b then NInf else PInf
  | _, _ => NaN
  end.

Definition nsqrt (x : num) : num :=
  match x with
  | Fin a => if Rlt_b a 0 then NaN else Fin (sqrt a)
  | PInf => PInf
  | _ => NaN
  end.

(** [x ** 2] *)
Definition nsquare (x : num) : num := nmul x x.

Definition nexp (x : num) : num :=
  match x with
  | Fin a => Fin (exp a)
  | PInf => PInf
  | NInf => Fin 0
  | NaN => NaN
  end.

Definition nsin (x : num) : num :=
  match x with
  | Fin a => Fin (sin a)
  | _ => NaN
  end.

Definition nacos (x : num) : num :=
  match x with
  | Fin a => if Rle_b (-1) a && Rle_b a 1 then Fin (acos a) else NaN
  | _ => NaN
  end.

(** Python's [sum(xs)]: a left fold of [+] from the integer [0]. *)
Definition py_sum (xs : list num) : num := fold_left nadd xs zero.

(** [np.isclose(a, b)] with numpy's defaults [rtol = 1e-05],
    [atol = 1e-08]: [|a - b| <= atol + rtol * |b|] for finite operands,
    equality for infinite ones, [False] as soon as one is [NaN]. *)
Definition rtol : R := 1 / 100000.
Definition atol : R := 1 / 100000000.

Definition isclose (a b : num) : bool :=
  match a, b with
  | Fin x, Fin y => Rle_b (Rabs (x - y)) (atol + rtol * Rabs y)
  | PInf, PInf | NInf, NInf => true
  | _, _ => false
  end.

(** ** Tensors *)

Record Tensor : Type := mkTensor { shape : list nat; data : list num }.

(** Number of elements of a tensor of shape [s]. *)
Definition numel (s : list nat) : nat := fold_right Nat.mul 1%nat s.

(** The element list has the length the shape announces. *)
Definition wf (t : Tensor) : Prop := length (data t) = numel (shape t).

Definition tmap (f : num -> num) (t : Tensor) : Tensor :=
  {| shape := shape t; data := map f (data t) |}.

(** [t * c], [c * t] for a Python float [c]. *)
Definition tscale (t : Tensor) (c : num) : Tensor := tmap (fun x => nmul x c) t.

(** [torch.zeros_like(t)] *)
Definition zeros_like (t : Tensor) : Tensor :=
  {| shape := shape t; data := repeat zero (numel (shape t)) |}.

(** [n] consecutive chunks of [sz] elements of [d]. *)
Definition chunks (sz n : nat) (d : list num) : list (list num) :=
  map (fun i => firstn sz (skipn (i * sz) d)) (seq 0 n).

(** *** Broadcasting *)

(** Broadcast of two shapes given innermost dimension first. *)
Fixpoint bshape_rev (a b : list nat) : option (list nat) :=
  match a, b with
  | [], s | s, [] => Some s
  | x :: a', y :: b' =>
      match bshape_rev a' b' with
      | None => None
      | Some s =>
          if (x =? y)%nat then Some (x :: s)
          else if (x =? 1)%nat then Some (y :: s)
          else if (y =? 1)%nat then Some (x :: s)
          else None
      end
  end.

(** [torch.broadcast_shapes]: the shapes are aligned on the right; two
    dimensions are compatible when they are equal or one of them is 1. *)
Definition broadcast_shapes (a b : list nat) : option (list nat) :=
  option_map (@rev nat) (bshape_rev (rev a) (rev b)).

(** A shape padded on the left with 1s up to rank [n]. *)
Definition pad_shape (n : nat) (s : list nat) : list nat :=
  repeat 1%nat (n - length s) ++ s.

(** The elements of a tensor of shape [src] expanded to shape [tgt] (of
    the same rank, every dimension of [src] being the one of [tgt] or 1). *)
Fixpoint expand (tgt src : list nat) (d : list num) : list num :=
  match tgt, src with
  | n :: tgt', k :: src' =>
      if (k =? n)%nat
      then flat_map (expand tgt' src') (chunks (numel src') k d)
      else concat (repeat (expand tgt' src' d) n)
  | _, _ => d
  end.

Definition expand_to (tgt : list nat) (t : Tensor) : list num :=
  expand tgt (pad_shape (length tgt) (shape t)) (data t).

Fixpoint zip_with (f : num -> num -> num) (xs ys : list num) : list num :=
  match xs, ys with
  | x :: xs', y :: ys' => f x y :: zip_with f xs' ys'
  | _, _ => []
  end.

(** ** Exceptions *)

Inductive exn : Type :=
| AssertionError (msg : string)
| IndexError (msg : string)
| RuntimeError (msg : string).

Inductive outcome (A : Type) : Type :=
| Ok (a : A)
| Raise (e : exn).
Arguments Ok {A} a.
Arguments Raise {A} e.

Definition obind {A B} (o : outcome A) (k : A -> outcome B) : outcome B :=
  match o with
  | Ok a => k a
  | Raise e => Raise e
  end.

Declare Scope outcome_scope.
Delimit Scope outcome_scope with outcome.
Notation "x <- c ;; k" := (obind c (fun x => k))
  (at level 61, c at next level, right associativity) : outcome_scope.

(** An elementwise binary operation [a op b] of two tensors. *)
Definition binop (f : num -> num -> num) (a b : Tensor) : outcome Tensor :=
  match broadcast_shapes (shape a) (shape b) with
  | None => Raise (RuntimeError "The size of tensor a must match the size of tensor b")
  | Some s => Ok {| shape := s; data := zip_with f (expand_to s a) (expand_to s b) |}
  end.

(** The in-place [a += b]: [b] broadcasts to the shape of [a], which cannot
    change. *)
Definition iadd (a b : Tensor) : outcome Tensor :=
  match broadcast_shapes (shape a) (shape b) with
  | None => Raise (RuntimeError "The size of tensor a must match the size of tensor b")
  | Some s =>
      if list_eq_dec Nat.eq_dec s (shape a)
      then Ok {| shape := s; data := zip_with nadd (expand_to s a) (expand_to s b) |}
      else Raise (RuntimeError "output with shape doesn't match the broadcast shape")
  end.

Local Open Scope outcome_scope.

(** *** Reductions along the last axis, [dim=-1, keepdim=True] *)

Definition last_dim (s : list nat) : nat := last s 1%nat.

Definition keepdim_shape (s : list nat) : list nat :=
  match s with
  | [] => []
  | _ => removelast s ++ [1%nat]
  end.

(** The vectors along the last axis. *)
Definition rows (t : Tensor) : list (list num) :=
  chunks (last_dim (shape t)) (numel (removelast (shape t))) (data t).

Definition reduce_last (f : list num -> num) (t : Tensor) : Tensor :=
  {| shape := keepdim_shape (shape t); data := map f (rows t) |}.

(** [torch.sum(t, dim=-1, keepdim=True)]; arithmetic being exact, the
    order in which torch adds the elements of a vector does not matter. *)
Definition sum_last : Tensor -> Tensor := reduce_last py_sum.

Definition norm2 (v : list num) : num := nsqrt (py_sum (map nsquare v)).

(** [torch.norm(t, dim=-1, keepdim=True)] *)
Definition norm_last : Tensor -> Tensor := reduce_last norm2.

(** *** Stacking, reshaping, distances, contraction *)

Definition shape_eqb (a b : list nat) : bool :=
  if list_eq_dec Nat.eq_dec a b then true else false.

(** [torch.stack(ts)] *)
Definition stack (ts : list Tensor) : outcome Tensor :=
  match ts with
  | [] => Raise (RuntimeError "stack expects a non-empty TensorList")
  | t :: rest =>
      if forallb (fun u => shape_eqb (shape u) (shape t)) rest
      then Ok {| shape := length ts :: shape t; data := flat_map data ts |}
      else Raise (RuntimeError "stack expects each tensor to be equal size")
  end.

(** [t.view(n, -1)] *)
Definition view_rows (n : nat) (t : Tensor) : outcome Tensor :=
  if (n =? 0)%nat
  then Raise (RuntimeError "cannot reshape tensor into shape [0, -1]")
  else if (numel (shape t) mod n =? 0)%nat
  then Ok {| shape := [n; (numel (shape t) / n)%nat]; data := data t |}
  else Raise (RuntimeError "shape is invalid for input size").

Definition euclid (a b : list num) : num :=
  nsqrt (py_sum (zip_with (fun x y => nsquare (nsub x y)) a b)).

(** [torch.cdist(x1, x2, p=2)] on matrices, the case [view(n, -1)]
    produces. *)
Definition cdist (x1 x2 : Tensor) : outcome Tensor :=
  match shape x1, shape x2 with
  | [n; d1], [m; d2] =>
      if (d1 =? d2)%nat
      then Ok {| shape := [n; m];
                 data := flat_map (fun a => map (euclid a) (chunks d2 m (data x2)))
                                  (chunks d1 n (data x1)) |}
      else Raise (RuntimeError "X1 and X2 must have the same number of columns")
  | _, _ => Raise (RuntimeError "cdist only supports at least 2D tensors")
  end.

(** [sum_i c_i * l_i] over vectors of [len] elements. *)
Definition weighted_sum (len : nat) (cs : list num) (ls : list (list num)) : list num :=
  fold_left (fun acc cl => zip_with nadd acc (map (nmul (fst cl)) (snd cl)))
            (combine cs ls) (repeat zero len).

(** [torch.einsum('ij,i...->j...', k, stk)]:
    [out[j, ...] = sum_i k[i][j] * stk[i, ...]]. *)
Definition einsum_ij_i_j (k stk : Tensor) : outcome Tensor :=
  match shape k, shape stk with
  | [n; m], n' :: s =>
      if (n =? n')%nat
      then
        let ls := chunks (numel s) n' (data stk) in
        let krows := chunks m n (data k) in
        Ok {| shape := m :: s;
              data := flat_map
                        (fun j => weighted_sum (numel s)
                                    (map (fun r => nth j r zero) krows) ls)
                        (seq 0 m) |}
      else Raise (RuntimeError "einsum(): operands do not broadcast")
  | _, _ => Raise (RuntimeError "einsum(): the number of subscripts does not match")
  end.

(** ** The blends on latents *)

(** Python's [assert cond, msg]. *)
Definition assert_ (cond : bool) (msg : string) : outcome unit :=
  if cond then Ok tt else Raise (AssertionError msg).

(** The two assertions every blend starts with. *)
Definition check_weights (n : nat) (weights : list num) (m1 m2 : string)
  : outcome unit :=
  _ <- assert_ (n =? length weights)%nat m1 ;;
  assert_ (isclose (py_sum weights) one) m2.

(** [weighted_slerp(weight, v0, v1)] *)
Definition weighted_slerp (weight : num) (v0 v1 : Tensor) : outcome Tensor :=
  v0_norm <- binop ndiv v0 (norm_last v0) ;;
  v1_norm <- binop ndiv v1 (norm_last v1) ;;
  prod <- binop nmul v0_norm v1_norm ;;
  let dot_product := sum_last prod in
  let omega := tmap nacos dot_product in
  let sin_omega := tmap nsin omega in
  c0 <- binop ndiv (tmap nsin (tmap (nmul (nsub one weight)) omega)) sin_omega ;;
  a <- binop nmul c0 v0 ;;
  c1 <- binop ndiv (tmap nsin (tmap (nmul weight) omega)) sin_omega ;;
  b <- binop nmul c1 v1 ;;
  binop nadd a b.

(** The loop of [barycentric_interpolation]: [blended_latent += latent * weight]. *)
Fixpoint barycentric_loop (items : list (Tensor * num)) (blended_latent : Tensor)
  : outcome Tensor :=
  match items with
  | [] => Ok blended_latent
  | (latent, weight) :: rest =>
      b <- iadd blended_latent (tscale latent weight) ;;
      barycentric_loop rest b
  end.

(** [barycentric_interpolation(latents, weights)] *)
Definition barycentric_interpolation (latents : list Tensor) (weights : list num)
  : outcome Tensor :=
  _ <- check_weights (length latents) weights
         "Number of latents and weights must match." "Weights must sum to 1." ;;
  match latents with
  | [] => Raise (IndexError "list index out of range")
  | l0 :: _ => barycentric_loop (combine latents weights) (zeros_like l0)
  end.

(** [gaussian_rbf(distances, epsilon)] *)
Definition gaussian_rbf (distances : Tensor) (epsilon : num) : Tensor :=
  tmap (fun d => nexp (nneg (nsquare (nmul epsilon d)))) distances.

(** [rbf_interpolation(latents, weights, epsilon)] *)
Definition rbf_interpolation (latents : list Tensor) (weights : list num)
  (epsilon : num) : outcome Tensor :=
  _ <- check_weights (length latents) weights
         "Number of latents and weights must match." "Weights must sum to 1." ;;
  latent_stack <- stack latents ;;
  flat <- view_rows (length latents) latent_stack ;;
  distances <- cdist flat flat ;;
  let rbf_weights := gaussian_rbf distances epsilon in
  rbf_weights <- binop ndiv rbf_weights (sum_last rbf_weights) ;;
  einsum_ij_i_j rbf_weights latent_stack.

(** ** The pipeline and its VAE *)

Inductive dtype : Type := float16 | bfloat16 | float32 | float64.

(** What the blends use of the [StableDiffusionXLPipeline]: the precision
    its VAE is in, the VAE's scaling factor, and the VAE's encoder (the mean
    of the latent distribution of a prepared image, at a given precision),
    which belongs to the [diffusers] library. *)
Record StableDiffusionXLPipeline : Type := mkPipeline {
  vae_dtype : dtype;
  vae_scaling_factor : num;
  vae_encode : dtype -> Tensor -> outcome Tensor
}.

(** Calls into the VAE, in the order they happen. *)
Inductive event : Type :=
| VaeTo (d : dtype)
| VaeEncode (x : Tensor).

Record world : Type := mkWorld {
  model : StableDiffusionXLPipeline;
  trace : list event
}.

(** Computations that read and update the model and may raise. *)
Definition M (A : Type) : Type := world -> outcome A * world.

Definition ret {A} (a : A) : M A := fun w => (Ok a, w).

Definition bind {A B} (c : M A) (k : A -> M B) : M B :=
  fun w =>
    match c w with
    | (Ok a, w') => k a w'
    | (Raise e, w') => (Raise e, w')
    end.

Definition lift {A} (o : outcome A) : M A := fun w => (o, w).

Declare Scope model_scope.
Delimit Scope model_scope with model.
Notation "x <- c ;; k" := (bind c (fun x => k))
  (at level 61, c at next level, right associativity) : model_scope.
Notation "c ;; k" := (bind c (fun _ => k))
  (at level 61, right associativity) : model_scope.

Local Open Scope model_scope.

(** [model.vae.to(dtype=d)] *)
Definition vae_to (d : dtype) : M unit :=
  fun w =>
    (Ok tt,
     {| model := {| vae_dtype := d;
                    vae_scaling_factor := vae_scaling_factor (model w);
                    vae_encode := vae_encode (model w) |};
        trace := trace w ++ [VaeTo d] |}).

(** [model.vae.encode(x)['latent_dist'].mean] *)
Definition vae_encode_mean (x : Tensor) : M Tensor :=
  fun w =>
    (vae_encode (model w) (vae_dtype (model w)) x,
     {| model := model w; trace := trace w ++ [VaeEncode x] |}).

Definition get_scaling_factor : M num :=
  fun w => (Ok (vae_scaling_factor (model w)), w).

(** [t.permute(2, 0, 1)] *)
Definition permute_201 (t : Tensor) : outcome Tensor :=
  match shape t with
  | [h; w; c] =>
      Ok {| shape := [c; h; w];
            data := flat_map
                      (fun ch => map (fun i => nth (i * c + ch) (data t) zero)
                                     (seq 0 (h * w)))
                      (seq 0 c) |}
  | _ => Raise (RuntimeError "permute: number of dims don't match")
  end.

(** [t.unsqueeze(0)] *)
Definition unsqueeze0 (t : Tensor) : Tensor :=
  {| shape := 1%nat :: shape t; data := data t |}.

(** The body shared by every encoding loop: one image to its latent. *)
Definition encode_latent (img : Tensor) : M Tensor :=
  let scaled_image := tmap (fun x => ndiv x (Fin 255)) img in
  permuted <- lift (permute_201
                      (tmap (fun x => nsub (nmul x (Fin 2)) (Fin 1)) scaled_image)) ;;
  mean <- vae_encode_mean (unsqueeze0 permuted) ;;
  k <- get_scaling_factor ;;
  ret (tscale mean k).

(** [image_encoding(model, image)] *)
Definition image_encoding (image : Tensor) : M Tensor :=
  vae_to float32 ;;
  latent_img <- encode_latent image ;;
  vae_to float16 ;;
  ret latent_img.

Definition check_blending_weights (images : list Tensor) (blending_weights : list num)
  : M unit :=
  lift (check_weights (length images) blending_weights
          "The number of images and blending_weights must match."
          "blending_weights must sum to 1.").

(** The loop of [images_encoding]; [blended_latent_img] is [None] until the
    first image is encoded. *)
Fixpoint linear_loop (items : list (Tensor * num)) (blended_latent_img : option Tensor)
  : M (option Tensor) :=
  match items with
  | [] => ret blended_latent_img
  | (img, weight) :: rest =>
      latent_img <- encode_latent img ;;
      b <- lift (match blended_latent_img with
                 | None => Ok (tscale latent_img weight)
                 | Some acc => iadd acc (tscale latent_img weight)
                 end) ;;
      linear_loop rest (Some b)
  end.

(** [images_encoding(model, images, blending_weights)] *)
Definition images_encoding (images : list Tensor) (blending_weights : list num)
  : M (option Tensor) :=
  check_blending_weights images blending_weights ;;
  vae_to float32 ;;
  blended_latent_img <- linear_loop (combine images blending_weights) None ;;
  vae_to float16 ;;
  ret blended_latent_img.

(** The loop of [images_encoding_slerp]. *)
Fixpoint slerp_loop (items : list (Tensor * num)) (blended_latent_img : option Tensor)
  : M (option Tensor) :=
  match items with
  | [] => ret blended_latent_img
  | (img, weight) :: rest =>
      latent_img <- encode_latent img ;;
      b <- lift (match blended_latent_img with
                 | None => Ok (tscale latent_img weight)
                 | Some acc => weighted_slerp weight acc latent_img
                 end) ;;
      slerp_loop rest (Some b)
  end.

(** [images_encoding_slerp(model, images, blending_weights)] *)
Definition images_encoding_slerp (images : list Tensor) (blending_weights : list num)
  : M (option Tensor) :=
  check_blending_weights images blending_weights ;;
  vae_to float32 ;;
  blended_latent_img <- slerp_loop (combine images blending_weights) None ;;
  vae_to float16 ;;
  ret blended_latent_img.

(** The loop building [latent_representations]. *)
Fixpoint encode_all (images : list Tensor) (latent_representations : list Tensor)
  : M (list Tensor) :=
  match images with
  | [] => ret latent_representations
  | img :: rest =>
      latent_img <- encode_latent img ;;
      encode_all rest (latent_representations ++ [latent_img])
  end.

(** [images_encoding_barycentric(model, images, blending_weights)] *)
Definition images_encoding_barycentric (images : list Tensor)
  (blending_weights : list num) : M Tensor :=
  check_blending_weights images blending_weights ;;
  vae_to float32 ;;
  latent_representations <- encode_all images [] ;;
  blended_latent_img <- lift (barycentric_interpolation latent_representations
                                blending_weights) ;;
  vae_to float16 ;;
  ret blended_latent_img.

(** [images_encoding_rbf(model, images, blending_weights, epsilon)] *)
Definition images_encoding_rbf (images : list Tensor) (blending_weights : list num)
  (epsilon : num) : M Tensor :=
  check_blending_weights images blending_weights ;;
  vae_to float32 ;;
  latent_representations <- encode_all images [] ;;
  blended_latent_img <- lift (rbf_interpolation latent_representations
                                blending_weights epsilon) ;;
  vae_to float16 ;;
  ret blended_latent_img.

(** ** Notions used to state the properties *)

(** The weights pass [np.isclose(sum(weights), 1.0)]. *)
Definition weights_close (weights : list num) : Prop :=
  exists r, py_sum weights = Fin r /\ Rabs (r - 1) <= atol + rtol.

(** Both assertions of a blend hold for [n] latents and [weights]. *)
Definition accepted (n : nat) (weights : list num) : Prop :=
  n = length weights /\ weights_close weights.

(** The tolerance the specification announces for the sum of the weights. *)
Definition spec_tol : R := 1 / 1000000.

(** The inputs the specification says are rejected: lengths differ or the
    sum of the weights is further than [spec_tol] from 1. *)
Definition spec_rejected (n : nat) (weights : list num) : Prop :=
  n <> length weights \/
  ~ (exists r, py_sum weights = Fin r /\ Rabs (r - 1) <= spec_tol).

(** The model with its VAE cast to [d]. *)
Definition set_vae_dtype (d : dtype) (m : StableDiffusionXLPipeline)
  : StableDiffusionXLPipeline :=
  {| vae_dtype := d;
     vae_scaling_factor := vae_scaling_factor m;
     vae_encode := vae_encode m |}.

(** The tensor handed to the VAE for an image. *)
Definition prepare (img : Tensor) : outcome Tensor :=
  (permuted <- permute_201
                 (tmap (fun x => nsub (nmul x (Fin 2)) (Fin 1))
                       (tmap (fun x => ndiv x (Fin 255)) img)) ;;
   Ok (unsqueeze0 permuted))%outcome.

(** The latent [encode_latent] computes for an image with model [m]. *)
Definition latent_of (m : StableDiffusionXLPipeline) (img : Tensor) : outcome Tensor :=
  (x <- prepare img ;;
   mean <- vae_encode m (vae_dtype m) x ;;
   Ok (tscale mean (vae_scaling_factor m)))%outcome.

(** The VAE calls [encode_latent] makes for an image. *)
Definition encode_events (img : Tensor) : list event :=
  match prepare img with
  | Ok x => [VaeEncode x]
  | Raise _ => []
  end.

(** The world [w] after the events [evs]. *)
Definition after (w : world) (evs : list event) : world :=
  {| model := model w; trace := trace w ++ evs |}.

(** The three ways a call of an [images_encoding*] function started in
    world [w] can end: an assertion on the weights fails and nothing has
    happened; the call returns, the VAE having been cast to [float32] and
    back to [float16]; an exception escapes after the cast to [float32]. *)
Inductive blend_run {A : Type} (w : world) : outcome A * world -> Prop :=
| run_rejected (msg : string) :
    blend_run w (Raise (AssertionError msg), w)
| run_returned (a : A) (evs : list event) :
    blend_run w
      (Ok a,
       {| model := set_vae_dtype float16 (model w);
          trace := trace w ++ VaeTo float32 :: evs ++ [VaeTo float16] |})
| run_raised (e : exn) (evs : list event) :
    blend_run w
      (Raise e,
       {| model := set_vae_dtype float32 (model w);
          trace := trace w ++ VaeTo float32 :: evs |}).

(** A computation that leaves the model alone and only adds VAE calls. *)
Definition frames {A : Type} (c : M A) : Prop :=
  forall w, exists evs, snd (c w) = after w evs.

(** One of the two assertions of a blend fails. *)
Definition rejected (n : nat) (weights : list num) : Prop :=
  n <> length weights \/ ~ weights_close weights.

(** The call ended in [r] with an assertion error and without any call
    into the VAE: the world is the one it started in. *)
Definition fails_untouched {A : Type} (w : world) (r : outcome A * world) : Prop :=
  exists msg, r = (Raise (AssertionError msg), w).

(** The call went past the assertions: its first VAE call, the cast to
    [float32], is in the trace. *)
Definition started {A : Type} (w : world) (r : outcome A * world) : Prop :=
  exists evs, trace (snd r) = trace w ++ VaeTo float32 :: evs.

(** The only exceptions of the tensor operations are [RuntimeError]s. *)
Definition runtime_only {A : Type} (o : outcome A) : Prop :=
  match o with
  | Ok _ | Raise (RuntimeError _) => True
  | Raise _ => False
  end.

(** ** Concrete inputs *)

(** A pipeline whose VAE returns the prepared image as the latent mean,
    with scaling factor 1. *)
Definition identity_vae (d : dtype) : StableDiffusionXLPipeline :=
  {| vae_dtype := d;
     vae_scaling_factor := one;
     vae_encode := fun _ x => Ok x |}.

Definition start_world (d : dtype) : world :=
  {| model := identity_vae d; trace := [] |}.

(** An image of one pixel with one channel. *)
Definition pixel (v : R) : Tensor := {| shape := [1; 1; 1]%nat; data := [Fin v] |}.

(** A latent of shape [(1,)] *)
Definition scalar_latent (v : R) : Tensor := {| shape := [1%nat]; data := [Fin v] |}.

(** A weight 5e-6 above 1. *)
Definition weight_off : num := Fin (1 + 5 / 1000000).

(** The weights [0.4, 0.4] of the specification's scenario. *)
Definition weights_04 : list num := [Fin (4 / 10); Fin (4 / 10)].

(** How a call started in [w] leaves the model: returning, with the VAE
    in [float16] and the rest as it was; raising, untouched (a failed
    assertion) or with the VAE in [float32]. *)
Definition leaves_float16 {A : Type} (w : world) (r : outcome A * world) : Prop :=
  match fst r with
  | Ok _ => model (snd r) = set_vae_dtype float16 (model w)
  | Raise _ =>
      model (snd r) = model w \/ model (snd r) = set_vae_dtype float32 (model w)
  end.

(** ** The loops of [images_encoding] and [images_encoding_slerp] once the
    latents are known *)

(** What [linear_loop] does with the latents of its images. *)
Fixpoint linear_fold (items : list (Tensor * num)) (blended : option Tensor)
  : outcome (option Tensor) :=
  match items with
  | [] => Ok blended
  | (latent, weight) :: rest =>
      (b <- match blended with
            | None => Ok (tscale latent weight)
            | Some acc => iadd acc (tscale latent weight)
            end ;;
       linear_fold rest (Some b))%outcome
  end.

(** What [slerp_loop] does with the latents of its images. *)
Fixpoint slerp_fold (items : list (Tensor * num)) (blended : option Tensor)
  : outcome (option Tensor) :=
  match items with
  | [] => Ok blended
  | (latent, weight) :: rest =>
      (b <- match blended with
            | None => Ok (tscale latent weight)
            | Some acc => weighted_slerp weight acc latent
            end ;;
       slerp_fold rest (Some b))%outcome
  end.

(** The images [images] encode to the latents [latents] once the VAE of
    the model of [w] is in [float32]. *)
Definition encodes_to (w : world) (images latents : list Tensor) : Prop :=
  Forall2 (fun img l => latent_of (set_vae_dtype float32 (model w)) img = Ok l)
          images latents.

(** The world a call that returns ends in: the VAE cast to [float32], one
    encoding per image, the VAE cast to [float16]. *)
Definition returned_world (w : world) (images : list Tensor) : world :=
  {| model := set_vae_dtype float16 (model w);
     trace := trace w ++ VaeTo float32 :: flat_map encode_events images
                ++ [VaeTo float16] |}.

(** Well-formed latents of one shape [s]. *)
Definition latents_of_shape (s : list nat) (latents : list Tensor) : Prop :=
  Forall (fun l => wf l /\ shape l = s) latents.

(** Weight vectors [0.3, 0.7] and [0.5, 0.5]. *)
Definition weights_37 : list num := [Fin (3 / 10); Fin (7 / 10)].
Definition weights_55 : list num := [Fin (1 / 2); Fin (1 / 2)].

(** The world after the first cast of a call, [model.vae.to(float32)]. *)
Definition cast32 (w : world) : world :=
  {| model := set_vae_dtype float32 (model w); trace := trace w ++ [VaeTo float32] |}.

(** The latent [encode_latent] computes for [pixel v] with [identity_vae]. *)
Definition pixel_latent (v : R) : Tensor :=
  {| shape := [1; 1; 1; 1]%nat; data := [Fin ((v / 255 * 2 + - (1)) * 1)] |}.

(** ** The RBF blend of latents of one shape, step by step *)

(** The [n] x [n] kernel of [n] flattened latents of [d] elements each:
    [exp(-(epsilon * distance)^2)]. *)
Definition rbf_kernel (d n : nat) (flat : list num) (epsilon : num) : list num :=
  map (fun x => nexp (nneg (nsquare (nmul epsilon x))))
      (flat_map (fun a => map (euclid a) (chunks d n flat)) (chunks d n flat)).

(** A kernel with every row divided by its sum. *)
Definition row_normalized (n : nat) (k : list num) : list num :=
  zip_with ndiv k (flat_map (fun x => repeat x n) (map py_sum (chunks n n k))).

(** The elements [rbf_interpolation] returns for [n] latents of [d]
    elements each, given flattened one after the other in [flat]. *)
Definition rbf_elements (d n : nat) (flat : list num) (epsilon : num) : list num :=
  flat_map
    (fun j => weighted_sum d
                (map (fun r => nth j r zero)
                     (chunks n n (row_normalized n (rbf_kernel d n flat epsilon))))
                (chunks d n flat))
    (seq 0 n).

(** A latent of shape [(2, 2)]. *)
Definition square_latent : Tensor :=
  {| shape := [2; 2]%nat; data := [Fin 1; Fin 2; Fin 3; Fin 4] |}.

(** ** The slerp of the specification, vector by vector *)

Fixpoint map2 {A B C : Type} (f : A -> B -> C) (xs : list A) (ys : list B) : list C :=
  match xs, ys with
  | x :: xs', y :: ys' => f x y :: map2 f xs' ys'
  | _, _ => []
  end.

(** Each element of [cs] repeated [D] times: a tensor of last dimension 1
    broadcast along a last dimension [D]. *)
Definition spread (D : nat) (cs : list num) : list num :=
  flat_map (fun x => repeat x D) cs.

(** The unit-normalized copy of a vector. *)
Definition unit_vector (r : list num) : list num :=
  map (fun x => ndiv x (norm2 r)) r.

(** The angle between two vectors: the arc cosine of the dot product of
    their unit-normalized copies. *)
Definition row_omega (r0 r1 : list num) : num :=
  nacos (py_sum (zip_with nmul (unit_vector r0) (unit_vector r1))).

(** [sin((1-t) omega)/sin(omega) * r0 + sin(t omega)/sin(omega) * r1] on
    the vectors themselves, not their normalized copies. *)
Definition slerp_row (t : num) (r0 r1 : list num) : list num :=
  let omega := row_omega r0 r1 in
  zip_with nadd
    (map (nmul (ndiv (nsin (nmul (nsub one t) omega)) (nsin omega))) r0)
    (map (nmul (ndiv (nsin (nmul t omega)) (nsin omega))) r1).

(** The weighted slerp as the specification words it: every vector along
    the last axis of [v0] is combined with the one of [v1] at the same
    place. *)
Definition weighted_slerp_spec (t : num) (v0 v1 : Tensor) : Tensor :=
  {| shape := shape v0; data := concat (map2 (slerp_row t) (rows v0) (rows v1)) |}.

(** The slerp blend as the specification words it: a left-to-right fold
    that starts with the first latent multiplied by its own weight and
    combines the running result [r] with each next latent [L_k] as
    [weighted_slerp(w_k, r, L_k)]. *)
Definition slerp_blend_spec (latents : list Tensor) (weights : list num)
  : option Tensor :=
  match latents, weights with
  | l1 :: ls, w1 :: wr =>
      Some (fold_left (fun r lw => weighted_slerp_spec (snd lw) r (fst lw))
                      (combine ls wr) (tscale l1 w1))
  | _, _ => None
  end.

(** The sum of a list of reals as [sum] computes it. *)
Definition rsum (xs : list R) : R := fold_left Rplus xs 0.

(** The latent [[1.0, 0.0]] of shape [(1, 2)] and the latent
    [[0.0, 1.0]] orthogonal to it. *)
Definition east : Tensor := {| shape := [1; 2]%nat; data := [Fin 1; Fin 0] |}.
Definition north : Tensor := {| shape := [1; 2]%nat; data := [Fin 0; Fin 1] |}.

(** The two tensors are nowhere colinear along the last axis: the sine of
    the angle of every pair of vectors is a nonzero real. *)
Definition non_colinear (v0 v1 : Tensor) : Prop :=
  Forall2 (fun r0 r1 => exists s, nsin (row_omega r0 r1) = Fin s /\ s <> 0)
          (rows v0) (rows v1).

(** ** Notions used by the further properties *)

(** An outcome of the one-latent functions turned into the outcome of a
    blend, which is [None] or a tensor. *)
Definition some_outcome (o : outcome Tensor) : outcome (option Tensor) :=
  match o with
  | Ok l => Ok (Some l)
  | Raise e => Raise e
  end.

(** The world a call ends in when an exception escapes after the cast to
    [float32] and the VAE calls [evs]. *)
Definition raised_world (w : world) (evs : list event) : world :=
  {| model := set_vae_dtype float32 (model w);
     trace := trace w ++ VaeTo float32 :: evs |}.

(** A latent of shape [(1, 3)]. *)
Definition triple : Tensor :=
  {| shape := [1; 3]%nat; data := [Fin 1; Fin 2; Fin 2] |}.

(** A pixel value: a real between 0 and 255. *)
Definition pixel_value (x : num) : Prop := exists r, x = Fin r /\ 0 <= r <= 255.

(** A real between -1 and 1. *)
Definition unit_value (x : num) : Prop := exists r, x = Fin r /\ -1 <= r <= 1.

(** A colour image of 1 x 2 pixels with 3 channels. *)
Definition two_pixels : Tensor :=
  {| shape := [1; 2; 3]%nat;
     data := [Fin 0; Fin 128; Fin 255; Fin 255; Fin 64; Fin 0] |}.

(** A grey-level image of 2 x 2 pixels, without a channel axis. *)
Definition grey_image : Tensor :=
  {| shape := [2; 2]%nat; data := [Fin 0; Fin 128; Fin 255; Fin 64] |}.

(** A value of the Gaussian kernel: a real in the interval [0, 1]. *)
Definition kernel_value (x : num) : Prop := exists k, x = Fin k /\ 0 <= k <= 1.

(** A positive real. *)
Definition positive (x : num) : Prop := exists k, x = Fin k /\ 0 < k.

(** The Gaussian of one distance, [exp(-(epsilon * d)^2)]. *)
Definition gaussian (epsilon d : num) : num :=
  nexp (nneg (nsquare (nmul epsilon d))).

(** The rows of the kernel of [rbf_kernel]: one row per latent, one entry
    per latent. *)
Definition kernel_rows (d n : nat) (flat : list num) (epsilon : num)
  : list (list num) :=
  map (fun a => map (fun b => gaussian epsilon (euclid a b)) (chunks d n flat))
      (chunks d n flat).

(** A vector divided by its sum. *)
Definition normalize_row (r : list num) : list num :=
  map (fun x => ndiv x (py_sum r)) r.

(** Two images of 1 x 2 pixels with one channel, white then black and all
    white, and the latents [encode_latent] computes for them with
    [identity_vae]: the orthogonal vectors (1, -1) and (1, 1) along the
    last axis. *)
Definition white_black : Tensor :=
  {| shape := [1; 2; 1]%nat; data := [Fin 255; Fin 0] |}.
Definition white_white : Tensor :=
  {| shape := [1; 2; 1]%nat; data := [Fin 255; Fin 255] |}.
Definition falling_latent : Tensor :=
  {| shape := [1; 1; 1; 2]%nat; data := [Fin 1; Fin (- (1))] |}.
Definition level_latent : Tensor :=
  {| shape := [1; 1; 1; 2]%nat; data := [Fin 1; Fin 1] |}.

(** * Properties *)

(** ** Arithmetic of [num] *)

Lemma Req_b_refl (a : R) : Req_b a a = true.
Proof. unfold Req_b. destruct (Req_dec_T a a); [reflexivity | contradiction]. Qed.

Lemma Req_b_false (a b : R) : a <> b -> Req_b a b = false.
Proof. intro H. unfold Req_b. destruct (Req_dec_T a b); [contradiction | reflexivity]. Qed.

Lemma Rle_b_true (a b : R) : a <= b -> Rle_b a b = true.
Proof. intro H. unfold Rle_b. destruct (Rle_dec a b); [reflexivity | contradiction]. Qed.

Lemma Rle_b_false (a b : R) : b < a -> Rle_b a b = false.
Proof. intro H. unfold Rle_b. destruct (Rle_dec a b); [lra | reflexivity]. Qed.

Lemma Rle_b_spec (a b : R) : Rle_b a b = true <-> a <= b.
Proof.
  unfold Rle_b. destruct (Rle_dec a b); split; intro; try assumption;
    try reflexivity; try discriminate; contradiction.
Qed.

Lemma Rlt_b_true (a b : R) : a < b -> Rlt_b a b = true.
Proof. intro H. unfold Rlt_b. destruct (Rlt_dec a b); [reflexivity | contradiction]. Qed.

Lemma Rlt_b_false (a b : R) : b <= a -> Rlt_b a b = false.
Proof. intro H. unfold Rlt_b. destruct (Rlt_dec a b); [lra | reflexivity]. Qed.

Lemma nadd_zero_l (x : num) : nadd zero x = x.
Proof. destruct x; simpl; try reflexivity. f_equal. lra. Qed.

Lemma nadd_zero_r (x : num) : nadd x zero = x.
Proof. destruct x; simpl; try reflexivity. f_equal. lra. Qed.

Lemma nmul_one_l (x : num) : nmul one x = x.
Proof.
  destruct x; simpl; try reflexivity.
  - f_equal. lra.
  - unfold inf_times. rewrite Req_b_false by lra. rewrite Rlt_b_true by lra. reflexivity.
  - unfold inf_times. rewrite Req_b_false by lra. rewrite Rlt_b_true by lra. reflexivity.
Qed.

Lemma nmul_zero_fin (r : R) : nmul zero (Fin r) = zero.
Proof. simpl. unfold zero. f_equal. lra. Qed.

Lemma ndiv_self (r : R) : r <> 0 -> ndiv (Fin r) (Fin r) = one.
Proof.
  intro H. simpl. rewrite Req_b_false by assumption. unfold one. f_equal.
  field. assumption.
Qed.

Lemma ndiv_zero_zero : ndiv (Fin 0) (Fin 0) = NaN.
Proof. simpl. rewrite !Req_b_refl. reflexivity. Qed.

Lemma ndiv_zero_fin (r : R) : r <> 0 -> ndiv (Fin 0) (Fin r) = zero.
Proof.
  intro H. simpl. rewrite Req_b_false by assumption. unfold zero. f_equal.
  field. assumption.
Qed.

(** ** Lists cut in chunks *)

Lemma chunks_S (sz n : nat) (d : list num) :
  chunks sz (S n) d = firstn sz d :: chunks sz n (skipn sz d).
Proof.
  unfold chunks. rewrite <- cons_seq, <- seq_shift. simpl. f_equal.
  rewrite map_map. apply map_ext. intro i.
  rewrite skipn_skipn. do 2 f_equal. lia.
Qed.

Lemma concat_chunks (sz n : nat) : forall d : list num,
  length d = (n * sz)%nat -> concat (chunks sz n d) = d.
Proof.
  induction n as [|n IH]; intros d H.
  - destruct d; [reflexivity | discriminate].
  - rewrite chunks_S. simpl. rewrite IH.
    + apply firstn_skipn.
    + rewrite length_skipn. simpl in H. lia.
Qed.

Lemma chunks_length (sz n : nat) : forall d : list num,
  length d = (n * sz)%nat -> Forall (fun c => length c = sz) (chunks sz n d).
Proof.
  induction n as [|n IH]; intros d H.
  - constructor.
  - rewrite chunks_S. constructor.
    + rewrite length_firstn. simpl in H. lia.
    + apply IH. rewrite length_skipn. simpl in H. lia.
Qed.

Lemma length_chunks (sz n : nat) (d : list num) : length (chunks sz n d) = n.
Proof. unfold chunks. rewrite length_map, length_seq. reflexivity. Qed.

Lemma chunks_app (sz n : nat) (c d : list num) :
  length c = sz -> chunks sz (S n) (c ++ d) = c :: chunks sz n d.
Proof.
  intro H. rewrite chunks_S. f_equal.
  - rewrite firstn_app, H, Nat.sub_diag. simpl. rewrite app_nil_r.
    rewrite <- H. apply firstn_all.
  - rewrite skipn_app, H, Nat.sub_diag. simpl.
    rewrite <- H, skipn_all. reflexivity.
Qed.

Lemma chunks_flat_map {A} (sz : nat) (f : A -> list num) (l : list A) :
  (forall a, In a l -> length (f a) = sz) ->
  chunks sz (length l) (flat_map f l) = map f l.
Proof.
  induction l as [|a l IH]; intro H.
  - reflexivity.
  - simpl. rewrite chunks_app by (apply H; left; reflexivity).
    f_equal. apply IH. intros b Hb. apply H. right. assumption.
Qed.

Lemma flat_map_fix (f : list num -> list num) (l : list (list num)) :
  Forall (fun c => f c = c) l -> flat_map f l = concat l.
Proof.
  induction 1 as [|c l Hc _ IH]; simpl; [reflexivity | rewrite Hc, IH; reflexivity].
Qed.

(** ** Broadcasting of equal shapes and of a kept last dimension *)

Lemma numel_app (a b : list nat) : numel (a ++ b) = (numel a * numel b)%nat.
Proof. induction a as [|x a IH]; simpl; [lia | rewrite IH; lia]. Qed.

Lemma expand_same (s : list nat) : forall d : list num,
  length d = numel s -> expand s s d = d.
Proof.
  induction s as [|n s IH]; intros d H; simpl.
  - reflexivity.
  - rewrite Nat.eqb_refl. simpl in H. rewrite flat_map_fix.
    + apply concat_chunks. assumption.
    + eapply Forall_impl; [|apply chunks_length; exact H].
      intros c Hc. apply IH. exact Hc.
Qed.

Lemma pad_shape_same (n : nat) (s : list nat) : length s = n -> pad_shape n s = s.
Proof. intros <-. unfold pad_shape. rewrite Nat.sub_diag. reflexivity. Qed.

Lemma bshape_rev_same (a : list nat) : bshape_rev a a = Some a.
Proof.
  induction a as [|x a IH]; simpl; [reflexivity|].
  rewrite IH, Nat.eqb_refl. reflexivity.
Qed.

Lemma broadcast_shapes_same (s : list nat) : broadcast_shapes s s = Some s.
Proof.
  unfold broadcast_shapes. rewrite bshape_rev_same. simpl.
  rewrite rev_involutive. reflexivity.
Qed.

Lemma expand_to_same (t : Tensor) : wf t -> expand_to (shape t) t = data t.
Proof.
  intro H. unfold expand_to. rewrite pad_shape_same by reflexivity.
  apply expand_same. exact H.
Qed.

Lemma expand_to_eq (s : list nat) (t : Tensor) :
  shape t = s -> wf t -> expand_to s t = data t.
Proof. intros <- H. apply expand_to_same. exact H. Qed.

Lemma binop_same (f : num -> num -> num) (a b : Tensor) :
  wf a -> wf b -> shape b = shape a ->
  binop f a b = Ok {| shape := shape a; data := zip_with f (data a) (data b) |}.
Proof.
  intros Ha Hb Hs. unfold binop. rewrite Hs, broadcast_shapes_same.
  rewrite (expand_to_eq (shape a) a eq_refl Ha), (expand_to_eq (shape a) b Hs Hb).
  reflexivity.
Qed.

Lemma iadd_same (a b : Tensor) :
  wf a -> wf b -> shape b = shape a ->
  iadd a b = Ok {| shape := shape a; data := zip_with nadd (data a) (data b) |}.
Proof.
  intros Ha Hb Hs. unfold iadd. rewrite Hs, broadcast_shapes_same.
  destruct (list_eq_dec Nat.eq_dec (shape a) (shape a)) as [_|n]; [|contradiction].
  rewrite (expand_to_eq (shape a) a eq_refl Ha), (expand_to_eq (shape a) b Hs Hb).
  reflexivity.
Qed.

Lemma concat_repeat_singleton (x : num) (n : nat) : concat (repeat [x] n) = repeat x n.
Proof. induction n as [|n IH]; simpl; [reflexivity | rewrite IH; reflexivity]. Qed.

Lemma flat_map_concat {A B} (f : A -> list B) (l : list (list A)) :
  flat_map (flat_map f) l = flat_map f (concat l).
Proof.
  induction l as [|c l IH]; simpl; [reflexivity|].
  rewrite flat_map_app, IH. reflexivity.
Qed.

Lemma flat_map_ext_on {A B} (f g : A -> list B) (l : list A) :
  (forall a, In a l -> f a = g a) -> flat_map f l = flat_map g l.
Proof.
  induction l as [|a l IH]; intro H; simpl; [reflexivity|].
  rewrite (H a) by (left; reflexivity). f_equal.
  apply IH. intros b Hb. apply H. right. exact Hb.
Qed.

Lemma expand_keepdim (init : list nat) (D : nat) : forall d : list num,
  length d = numel init ->
  expand (init ++ [D]) (init ++ [1%nat]) d = flat_map (fun x => repeat x D) d.
Proof.
  induction init as [|n init IH]; intros d H.
  - destruct d as [|x [|y d]]; try discriminate.
    change (expand ([] ++ [D]) ([] ++ [1%nat]) [x])
      with (if (1 =? D)%nat then flat_map (fun c : list num => c) (chunks 1 1 [x])
            else concat (repeat [x] D)).
    change (flat_map (fun y => repeat y D) [x]) with (repeat x D ++ []).
    rewrite app_nil_r.
    destruct (Nat.eqb_spec 1 D) as [<-|_].
    + reflexivity.
    + apply concat_repeat_singleton.
  - simpl. rewrite Nat.eqb_refl. rewrite numel_app. simpl numel at 2.
    rewrite Nat.mul_1_r. simpl in H.
    rewrite (flat_map_ext_on (expand (init ++ [D]) (init ++ [1%nat]))
                             (flat_map (fun x => repeat x D))).
    + rewrite flat_map_concat, concat_chunks by assumption. reflexivity.
    + intros c Hc. apply IH.
      pose proof (chunks_length (numel init) n d H) as F.
      rewrite Forall_forall in F. apply F. exact Hc.
Qed.

Lemma rev_cons_rev (x : nat) (l : list nat) : rev (x :: rev l) = l ++ [x].
Proof. simpl. rewrite rev_involutive. reflexivity. Qed.

Lemma broadcast_shapes_keepdim_r (init : list nat) (D : nat) :
  broadcast_shapes (init ++ [D]) (init ++ [1%nat]) = Some (init ++ [D]).
Proof.
  unfold broadcast_shapes. rewrite !rev_unit. simpl. rewrite bshape_rev_same.
  destruct (Nat.eqb_spec D 1) as [->|_]; unfold option_map;
    rewrite rev_cons_rev; reflexivity.
Qed.

Lemma broadcast_shapes_keepdim_l (init : list nat) (D : nat) :
  broadcast_shapes (init ++ [1%nat]) (init ++ [D]) = Some (init ++ [D]).
Proof.
  unfold broadcast_shapes. rewrite !rev_unit. cbn [bshape_rev].
  rewrite bshape_rev_same, Nat.eqb_refl.
  destruct (Nat.eqb_spec 1 D) as [<-|_]; unfold option_map;
    rewrite rev_cons_rev; reflexivity.
Qed.

Lemma expand_to_keepdim (init : list nat) (D : nat) (k : Tensor) :
  shape k = init ++ [1%nat] -> wf k ->
  expand_to (init ++ [D]) k = flat_map (fun x => repeat x D) (data k).
Proof.
  intros Hs Hk. unfold expand_to. rewrite Hs.
  rewrite pad_shape_same by (rewrite !length_app; reflexivity).
  apply expand_keepdim. unfold wf in Hk. rewrite Hk, Hs, numel_app. simpl. lia.
Qed.

Lemma binop_keepdim_r (f : num -> num -> num) (a k : Tensor) (init : list nat) (D : nat) :
  shape a = init ++ [D] -> shape k = init ++ [1%nat] -> wf a -> wf k ->
  binop f a k =
  Ok {| shape := init ++ [D];
        data := zip_with f (data a) (flat_map (fun x => repeat x D) (data k)) |}.
Proof.
  intros Ha Hk Wa Wk. unfold binop. rewrite Ha, Hk, broadcast_shapes_keepdim_r.
  rewrite (expand_to_eq _ a Ha Wa), (expand_to_keepdim init D k Hk Wk). reflexivity.
Qed.

Lemma binop_keepdim_l (f : num -> num -> num) (k a : Tensor) (init : list nat) (D : nat) :
  shape a = init ++ [D] -> shape k = init ++ [1%nat] -> wf a -> wf k ->
  binop f k a =
  Ok {| shape := init ++ [D];
        data := zip_with f (flat_map (fun x => repeat x D) (data k)) (data a) |}.
Proof.
  intros Ha Hk Wa Wk. unfold binop. rewrite Ha, Hk, broadcast_shapes_keepdim_l.
  rewrite (expand_to_eq _ a Ha Wa), (expand_to_keepdim init D k Hk Wk). reflexivity.
Qed.

(** ** The assertions on the weights *)

Lemma isclose_one (s : num) :
  isclose s one = true <-> exists r, s = Fin r /\ Rabs (r - 1) <= atol + rtol.
Proof.
  destruct s as [r| | |]; simpl.
  - rewrite Rle_b_spec, Rabs_R1, Rmult_1_r. split.
    + intro H. exists r. split; [reflexivity | exact H].
    + intros [r' [E H]]. injection E as ->. exact H.
  - split; [discriminate | intros [r [E _]]; discriminate].
  - split; [discriminate | intros [r [E _]]; discriminate].
  - split; [discriminate | intros [r [E _]]; discriminate].
Qed.

Lemma check_weights_accept (n : nat) (ws : list num) (m1 m2 : string) :
  accepted n ws -> check_weights n ws m1 m2 = Ok tt.
Proof.
  intros [Hn Hc]. unfold check_weights, assert_.
  rewrite Hn, Nat.eqb_refl. simpl.
  apply isclose_one in Hc. rewrite Hc. reflexivity.
Qed.

Lemma check_weights_reject (n : nat) (ws : list num) (m1 m2 : string) :
  ~ accepted n ws ->
  check_weights n ws m1 m2 =
  Raise (AssertionError (if (n =? length ws)%nat then m2 else m1)).
Proof.
  intro H. unfold check_weights, assert_.
  destruct (Nat.eqb_spec n (length ws)) as [E|E]; simpl; [|reflexivity].
  destruct (isclose (py_sum ws) one) eqn:C; [|reflexivity].
  exfalso. apply H. split; [exact E | apply isclose_one; exact C].
Qed.

Lemma accepted_dec (n : nat) (ws : list num) : accepted n ws \/ ~ accepted n ws.
Proof.
  destruct (Nat.eq_dec n (length ws)) as [E|E].
  - destruct (isclose (py_sum ws) one) eqn:C.
    + left. split; [exact E | apply isclose_one; exact C].
    + right. intros [_ H]. apply isclose_one in H. congruence.
  - right. intros [H _]. contradiction.
Qed.

Lemma accepted_nonempty (n : nat) (ws : list num) : accepted n ws -> n <> 0%nat.
Proof.
  intros [Hn [r [Hs Hr]]] ->. destruct ws; [|discriminate].
  unfold py_sum, zero in Hs. simpl in Hs. injection Hs as <-.
  unfold atol, rtol in Hr.
  replace (0 - 1) with (- (1)) in Hr by lra.
  rewrite Rabs_Ropp, Rabs_R1 in Hr. lra.
Qed.

(** ** Effects of the encoding loops *)

Lemma after_nil (w : world) : after w [] = w.
Proof. destruct w as [m t]. unfold after. simpl. rewrite app_nil_r. reflexivity. Qed.

Lemma after_after (w : world) (e1 e2 : list event) :
  after (after w e1) e2 = after w (e1 ++ e2).
Proof. unfold after. simpl. rewrite app_assoc. reflexivity. Qed.

Lemma encode_latent_run (img : Tensor) (w : world) :
  encode_latent img w = (latent_of (model w) img, after w (encode_events img)).
Proof.
  unfold encode_latent, latent_of, encode_events, prepare, bind, lift.
  destruct (permute_201 _) as [p|e]; simpl.
  - unfold vae_encode_mean.
    destruct (vae_encode (model w) (vae_dtype (model w)) (unsqueeze0 p)); reflexivity.
  - rewrite after_nil. reflexivity.
Qed.

Lemma frames_ret {A} (a : A) : frames (ret a).
Proof. intro w. exists []. symmetry. apply after_nil. Qed.

Lemma frames_lift {A} (o : outcome A) : frames (lift o).
Proof. intro w. exists []. symmetry. apply after_nil. Qed.

Lemma frames_encode_latent (img : Tensor) : frames (encode_latent img).
Proof. intro w. rewrite encode_latent_run. eexists. reflexivity. Qed.

Lemma frames_bind {A B} (c : M A) (k : A -> M B) :
  frames c -> (forall a, frames (k a)) -> frames (bind c k).
Proof.
  intros Hc Hk w. unfold bind. destruct (Hc w) as [e1 H1].
  destruct (c w) as [[a|e] w1]; simpl in *; subst w1.
  - destruct (Hk a (after w e1)) as [e2 H2]. rewrite H2, after_after.
    eexists. reflexivity.
  - eexists. reflexivity.
Qed.

Lemma frames_linear_loop (items : list (Tensor * num)) :
  forall acc, frames (linear_loop items acc).
Proof.
  induction items as [|[img weight] rest IH]; intro acc; simpl.
  - apply frames_ret.
  - apply frames_bind; [apply frames_encode_latent|]. intro l.
    apply frames_bind; [apply frames_lift|]. intro b. apply IH.
Qed.

Lemma frames_slerp_loop (items : list (Tensor * num)) :
  forall acc, frames (slerp_loop items acc).
Proof.
  induction items as [|[img weight] rest IH]; intro acc; simpl.
  - apply frames_ret.
  - apply frames_bind; [apply frames_encode_latent|]. intro l.
    apply frames_bind; [apply frames_lift|]. intro b. apply IH.
Qed.

Lemma frames_encode_all (images : list Tensor) :
  forall acc, frames (encode_all images acc).
Proof.
  induction images as [|img rest IH]; intro acc; simpl.
  - apply frames_ret.
  - apply frames_bind; [apply frames_encode_latent|]. intro l. apply IH.
Qed.

(** The cast to [float32], a framed body, the cast back to [float16]. *)
Lemma cast_body_cast {A} (body : M A) (w : world) :
  frames body ->
  blend_run w ((vae_to float32 ;; r <- body ;; vae_to float16 ;; ret r) w).
Proof.
  intro Hb. unfold bind at 1. unfold vae_to at 1.
  set (w1 := {| model := _; trace := _ |}).
  unfold bind at 1. destruct (Hb w1) as [evs H].
  destruct (body w1) as [[a|e] w2]; simpl in H; subst w2.
  - unfold bind, vae_to, ret, after, w1. simpl.
    rewrite <- !app_assoc. simpl. apply run_returned.
  - unfold after, w1. simpl. rewrite <- app_assoc. simpl. apply run_raised.
Qed.

Lemma check_blending_accept (images : list Tensor) (ws : list num) (w : world) :
  accepted (length images) ws -> check_blending_weights images ws w = (Ok tt, w).
Proof.
  intro H. unfold check_blending_weights, lift.
  rewrite check_weights_accept by assumption. reflexivity.
Qed.

Lemma check_blending_reject (images : list Tensor) (ws : list num) (w : world) :
  ~ accepted (length images) ws ->
  exists msg, check_blending_weights images ws w = (Raise (AssertionError msg), w).
Proof.
  intro H. unfold check_blending_weights, lift.
  rewrite check_weights_reject by assumption. eexists. reflexivity.
Qed.

Lemma bind_assoc {A B C} (c : M A) (k : A -> M B) (h : B -> M C) (w : world) :
  bind (bind c k) h w = bind c (fun a => bind (k a) h) w.
Proof. unfold bind. destruct (c w) as [[a|e] w1]; reflexivity. Qed.

Lemma rejected_iff (n : nat) (ws : list num) : rejected n ws <-> ~ accepted n ws.
Proof.
  unfold rejected, accepted. split.
  - intros [H|H] [H1 H2]; contradiction.
  - intro H. destruct (Nat.eq_dec n (length ws)) as [E|E]; [|left; exact E].
    right. intro C. apply H. split; assumption.
Qed.

Lemma blend_run_started {A} (w : world) (r : outcome A * world) :
  blend_run w r -> fails_untouched w r \/ started w r.
Proof.
  intros [msg|a evs|e evs].
  - left. exists msg. reflexivity.
  - right. eexists. reflexivity.
  - right. eexists. reflexivity.
Qed.

Lemma started_not_untouched {A} (w : world) (r : outcome A * world) :
  started w r -> ~ fails_untouched w r.
Proof.
  intros [evs H] [msg ->]. simpl in H.
  apply (f_equal (@length event)) in H. rewrite length_app in H. simpl in H. lia.
Qed.

(** Each [images_encoding*] function, after its assertions, is the cast to
    [float32], a framed body and the cast back. *)
Lemma images_encoding_accepted (images : list Tensor) (ws : list num) (w : world) :
  accepted (length images) ws ->
  images_encoding images ws w =
  (vae_to float32 ;; r <- linear_loop (combine images ws) None ;;
   vae_to float16 ;; ret r) w.
Proof.
  intro H. unfold images_encoding. unfold bind at 1.
  rewrite check_blending_accept by assumption. reflexivity.
Qed.

Lemma images_encoding_slerp_accepted (images : list Tensor) (ws : list num) (w : world) :
  accepted (length images) ws ->
  images_encoding_slerp images ws w =
  (vae_to float32 ;; r <- slerp_loop (combine images ws) None ;;
   vae_to float16 ;; ret r) w.
Proof.
  intro H. unfold images_encoding_slerp. unfold bind at 1.
  rewrite check_blending_accept by assumption. reflexivity.
Qed.

Lemma images_encoding_barycentric_accepted (images : list Tensor) (ws : list num)
  (w : world) :
  accepted (length images) ws ->
  images_encoding_barycentric images ws w =
  (vae_to float32 ;;
   r <- (ls <- encode_all images [] ;; lift (barycentric_interpolation ls ws)) ;;
   vae_to float16 ;; ret r) w.
Proof.
  intro H. unfold images_encoding_barycentric. unfold bind at 1.
  rewrite check_blending_accept by assumption.
  unfold bind, vae_to. simpl.
  destruct (encode_all images [] _) as [[ls|e] w1]; reflexivity.
Qed.

Lemma images_encoding_rbf_accepted (images : list Tensor) (ws : list num)
  (epsilon : num) (w : world) :
  accepted (length images) ws ->
  images_encoding_rbf images ws epsilon w =
  (vae_to float32 ;;
   r <- (ls <- encode_all images [] ;; lift (rbf_interpolation ls ws epsilon)) ;;
   vae_to float16 ;; ret r) w.
Proof.
  intro H. unfold images_encoding_rbf. unfold bind at 1.
  rewrite check_blending_accept by assumption.
  unfold bind, vae_to. simpl.
  destruct (encode_all images [] _) as [[ls|e] w1]; reflexivity.
Qed.

Lemma images_encoding_run (images : list Tensor) (ws : list num) (w : world) :
  blend_run w (images_encoding images ws w).
Proof.
  destruct (accepted_dec (length images) ws) as [H|H].
  - rewrite images_encoding_accepted by assumption.
    apply cast_body_cast, frames_linear_loop.
  - destruct (check_blending_reject images ws w H) as [msg E].
    unfold images_encoding, bind. rewrite E. apply run_rejected.
Qed.

Lemma images_encoding_slerp_run (images : list Tensor) (ws : list num) (w : world) :
  blend_run w (images_encoding_slerp images ws w).
Proof.
  destruct (accepted_dec (length images) ws) as [H|H].
  - rewrite images_encoding_slerp_accepted by assumption.
    apply cast_body_cast, frames_slerp_loop.
  - destruct (check_blending_reject images ws w H) as [msg E].
    unfold images_encoding_slerp, bind. rewrite E. apply run_rejected.
Qed.

Lemma images_encoding_barycentric_run (images : list Tensor) (ws : list num) (w : world) :
  blend_run w (images_encoding_barycentric images ws w).
Proof.
  destruct (accepted_dec (length images) ws) as [H|H].
  - rewrite images_encoding_barycentric_accepted by assumption.
    apply cast_body_cast, frames_bind; [apply frames_encode_all|].
    intro ls. apply frames_lift.
  - destruct (check_blending_reject images ws w H) as [msg E].
    unfold images_encoding_barycentric, bind. rewrite E. apply run_rejected.
Qed.

Lemma images_encoding_rbf_run (images : list Tensor) (ws : list num) (epsilon : num)
  (w : world) :
  blend_run w (images_encoding_rbf images ws epsilon w).
Proof.
  destruct (accepted_dec (length images) ws) as [H|H].
  - rewrite images_encoding_rbf_accepted by assumption.
    apply cast_body_cast, frames_bind; [apply frames_encode_all|].
    intro ls. apply frames_lift.
  - destruct (check_blending_reject images ws w H) as [msg E].
    unfold images_encoding_rbf, bind. rewrite E. apply run_rejected.
Qed.

(** A call that passed the assertions has started. *)
Lemma cast_body_started {A} (body : M A) (w : world) :
  frames body ->
  started w ((vae_to float32 ;; r <- body ;; vae_to float16 ;; ret r) w).
Proof.
  intro Hb. unfold started. unfold bind at 1. unfold vae_to at 1.
  set (w1 := {| model := _; trace := _ |}).
  unfold bind at 1. destruct (Hb w1) as [evs Hw].
  destruct (body w1) as [[a|e] w2]; simpl in Hw; subst w2.
  - exists (evs ++ [VaeTo float16]).
    unfold bind, vae_to, ret, after, w1. simpl. rewrite <- !app_assoc. reflexivity.
  - exists evs. unfold after, w1. simpl. rewrite <- app_assoc. reflexivity.
Qed.

(** ** Exceptions of the tensor operations *)

Lemma runtime_only_bind {A B} (o : outcome A) (k : A -> outcome B) :
  runtime_only o -> (forall a, runtime_only (k a)) -> runtime_only (obind o k).
Proof. destruct o as [a|[m|m|m]]; simpl; auto; contradiction. Qed.

Lemma runtime_only_binop (f : num -> num -> num) (a b : Tensor) :
  runtime_only (binop f a b).
Proof. unfold binop. destruct (broadcast_shapes _ _); exact I. Qed.

Lemma runtime_only_iadd (a b : Tensor) : runtime_only (iadd a b).
Proof.
  unfold iadd. destruct (broadcast_shapes _ _); [|exact I].
  destruct (list_eq_dec _ _ _); exact I.
Qed.

Lemma runtime_only_stack (ts : list Tensor) : runtime_only (stack ts).
Proof. unfold stack. destruct ts; [exact I|]. destruct (forallb _ _); exact I. Qed.

Lemma runtime_only_view_rows (n : nat) (t : Tensor) : runtime_only (view_rows n t).
Proof.
  unfold view_rows. destruct (n =? 0)%nat; [exact I|].
  destruct (_ =? 0)%nat; exact I.
Qed.

Lemma runtime_only_cdist (a b : Tensor) : runtime_only (cdist a b).
Proof.
  unfold cdist. destruct (shape a) as [|n [|d1 [|? ?]]]; try exact I.
  destruct (shape b) as [|m [|d2 [|? ?]]]; try exact I.
  destruct (d1 =? d2)%nat; exact I.
Qed.

Lemma runtime_only_einsum (k s : Tensor) : runtime_only (einsum_ij_i_j k s).
Proof.
  unfold einsum_ij_i_j. destruct (shape k) as [|n [|m [|? ?]]]; try exact I.
  destruct (shape s) as [|n' s']; try exact I.
  destruct (n =? n')%nat; exact I.
Qed.

Lemma runtime_only_barycentric_loop (items : list (Tensor * num)) :
  forall acc, runtime_only (barycentric_loop items acc).
Proof.
  induction items as [|[l wt] rest IH]; intro acc; simpl; [exact I|].
  apply runtime_only_bind; [apply runtime_only_iadd | intro b; apply IH].
Qed.

Lemma runtime_only_not_assertion {A} (o : outcome A) :
  runtime_only o -> ~ exists msg, o = Raise (AssertionError msg).
Proof. intros H [msg ->]. exact H. Qed.

(** ** Rejected and accepted calls *)

Lemma not_rejected_accepted (n : nat) (ws : list num) :
  ~ rejected n ws -> accepted n ws.
Proof.
  intro H. destruct (accepted_dec n ws) as [A|A]; [exact A|].
  exfalso. apply H. apply rejected_iff. exact A.
Qed.

Lemma run_iffs {A} (w : world) (r : outcome A * world) (n : nat) (ws : list num) :
  (rejected n ws -> fails_untouched w r) ->
  (accepted n ws -> started w r) ->
  (fails_untouched w r <-> rejected n ws) /\ (started w r <-> ~ rejected n ws).
Proof.
  intros H1 H2. split; split.
  - intro F. destruct (accepted_dec n ws) as [Ha|Ha].
    + exfalso. exact (started_not_untouched w r (H2 Ha) F).
    + apply rejected_iff. exact Ha.
  - exact H1.
  - intros S Rj. exact (started_not_untouched w r S (H1 Rj)).
  - intro N. apply H2, not_rejected_accepted, N.
Qed.

Lemma bind_rejected {B} (c : M unit) (k : unit -> M B) (w : world) :
  (exists msg, c w = (Raise (AssertionError msg), w)) ->
  @fails_untouched B w (bind c k w).
Proof. intros [msg E]. exists msg. unfold bind. rewrite E. reflexivity. Qed.

Lemma barycentric_interpolation_rejects (latents : list Tensor) (ws : list num) :
  (exists msg, barycentric_interpolation latents ws = Raise (AssertionError msg))
  <-> rejected (length latents) ws.
Proof.
  rewrite rejected_iff. unfold barycentric_interpolation. split.
  - intros H A. rewrite check_weights_accept in H by assumption. simpl in H.
    destruct latents as [|l0 ls].
    + destruct H as [msg H]. discriminate.
    + revert H. apply runtime_only_not_assertion, runtime_only_barycentric_loop.
  - intro N. rewrite check_weights_reject by assumption. simpl. eexists. reflexivity.
Qed.

Lemma rbf_interpolation_rejects (latents : list Tensor) (ws : list num) (epsilon : num) :
  (exists msg, rbf_interpolation latents ws epsilon = Raise (AssertionError msg))
  <-> rejected (length latents) ws.
Proof.
  rewrite rejected_iff. unfold rbf_interpolation. split.
  - intros H A. rewrite check_weights_accept in H by assumption.
    cbn [obind] in H. revert H. apply runtime_only_not_assertion.
    apply runtime_only_bind; [apply runtime_only_stack|]. intro s.
    apply runtime_only_bind; [apply runtime_only_view_rows|]. intro f.
    apply runtime_only_bind; [apply runtime_only_cdist|]. intro d.
    apply runtime_only_bind; [apply runtime_only_binop|]. intro k.
    apply runtime_only_einsum.
  - intro N. rewrite check_weights_reject by assumption. simpl. eexists. reflexivity.
Qed.

Section OpIffs.
Variables (images : list Tensor) (ws : list num) (epsilon : num) (w : world).

Lemma images_encoding_iffs :
  (fails_untouched w (images_encoding images ws w) <-> rejected (length images) ws) /\
  (started w (images_encoding images ws w) <-> ~ rejected (length images) ws).
Proof.
  apply run_iffs.
  - intro Rj. apply bind_rejected, check_blending_reject, rejected_iff, Rj.
  - intro Ha. rewrite images_encoding_accepted by assumption.
    apply cast_body_started, frames_linear_loop.
Qed.

Lemma images_encoding_slerp_iffs :
  (fails_untouched w (images_encoding_slerp images ws w)
   <-> rejected (length images) ws) /\
  (started w (images_encoding_slerp images ws w) <-> ~ rejected (length images) ws).
Proof.
  apply run_iffs.
  - intro Rj. apply bind_rejected, check_blending_reject, rejected_iff, Rj.
  - intro Ha. rewrite images_encoding_slerp_accepted by assumption.
    apply cast_body_started, frames_slerp_loop.
Qed.

Lemma images_encoding_barycentric_iffs :
  (fails_untouched w (images_encoding_barycentric images ws w)
   <-> rejected (length images) ws) /\
  (started w (images_encoding_barycentric images ws w)
   <-> ~ rejected (length images) ws).
Proof.
  apply run_iffs.
  - intro Rj. apply bind_rejected, check_blending_reject, rejected_iff, Rj.
  - intro Ha. rewrite images_encoding_barycentric_accepted by assumption.
    apply cast_body_started, frames_bind; [apply frames_encode_all|].
    intro ls. apply frames_lift.
Qed.

Lemma images_encoding_rbf_iffs :
  (fails_untouched w (images_encoding_rbf images ws epsilon w)
   <-> rejected (length images) ws) /\
  (started w (images_encoding_rbf images ws epsilon w)
   <-> ~ rejected (length images) ws).
Proof.
  apply run_iffs.
  - intro Rj. apply bind_rejected, check_blending_reject, rejected_iff, Rj.
  - intro Ha. rewrite images_encoding_rbf_accepted by assumption.
    apply cast_body_started, frames_bind; [apply frames_encode_all|].
    intro ls. apply frames_lift.
Qed.
End OpIffs.

(** C3 (as amended): every blend fails with the assertion error, before
    any call into the VAE or any tensor operation, if and only if the
    number of latents differs from the number of weights or the sum of the
    weights is not within numpy's [isclose] tolerance of 1, which is
    [atol + rtol * 1 = 1e-8 + 1e-5] and not [1e-6]; otherwise the call goes
    on: the [images_encoding*] functions cast the VAE to [float32], and the
    functions on latents end with a tensor or a [RuntimeError] of a tensor
    operation. *)
Theorem blend_rejects_iff_assertion_fails
  (images : list Tensor) (ws : list num) (epsilon : num) (w : world) :
  ((fails_untouched w (images_encoding images ws w) <-> rejected (length images) ws) /\
   (started w (images_encoding images ws w) <-> ~ rejected (length images) ws)) /\
  ((fails_untouched w (images_encoding_slerp images ws w)
    <-> rejected (length images) ws) /\
   (started w (images_encoding_slerp images ws w) <-> ~ rejected (length images) ws)) /\
  ((fails_untouched w (images_encoding_barycentric images ws w)
    <-> rejected (length images) ws) /\
   (started w (images_encoding_barycentric images ws w)
    <-> ~ rejected (length images) ws)) /\
  ((fails_untouched w (images_encoding_rbf images ws epsilon w)
    <-> rejected (length images) ws) /\
   (started w (images_encoding_rbf images ws epsilon w)
    <-> ~ rejected (length images) ws)) /\
  ((exists msg, barycentric_interpolation images ws = Raise (AssertionError msg))
   <-> rejected (length images) ws) /\
  ((exists msg, rbf_interpolation images ws epsilon = Raise (AssertionError msg))
   <-> rejected (length images) ws).
Proof.
  split; [apply images_encoding_iffs|].
  split; [apply images_encoding_slerp_iffs|].
  split; [apply images_encoding_barycentric_iffs|].
  split; [apply images_encoding_rbf_iffs|].
  split; [apply barycentric_interpolation_rejects | apply rbf_interpolation_rejects].
Qed.

Lemma accepted_weight_off : accepted 1 [weight_off].
Proof.
  split; [reflexivity|]. eexists. split; [reflexivity|].
  unfold atol, rtol. rewrite Rabs_pos_eq; lra.
Qed.

Lemma spec_rejected_weight_off : spec_rejected 1 [weight_off].
Proof.
  right. intros [r [E H]]. unfold py_sum, weight_off, zero in E. simpl in E.
  injection E as <-. unfold spec_tol in H. rewrite Rabs_pos_eq in H; lra.
Qed.

Lemma rejected_weights_04 : rejected 2 weights_04.
Proof.
  right. intros [r [E H]]. unfold py_sum, weights_04, zero in E. simpl in E.
  injection E as <-. unfold atol, rtol in H.
  rewrite Rabs_left in H; lra.
Qed.

(** C3, the scenario of the specification: the weights [0.4, 0.4] are
    rejected by [images_encoding] before the VAE is touched. *)
Lemma blend_rejects_weights_04 :
  fails_untouched (start_world float16)
    (images_encoding [pixel 255; pixel 0] weights_04 (start_world float16)).
Proof.
  apply (proj2 (proj1 (proj1
           (blend_rejects_iff_assertion_fails [pixel 255; pixel 0] weights_04 one
              (start_world float16))))).
  exact rejected_weights_04.
Defined.

(** C3 as stated fails: a single weight 1.000005 is further than [1e-6]
    from 1, so the claim has the call rejected, but [np.isclose] accepts it
    and neither [rbf_interpolation] nor [images_encoding] fails the
    assertion. *)
Lemma tolerance_1e6_not_enforced :
  ~ ((exists msg, rbf_interpolation [scalar_latent 1] [weight_off] one
                  = Raise (AssertionError msg))
     <-> spec_rejected 1 [weight_off]) /\
  ~ (fails_untouched (start_world float16)
       (images_encoding [pixel 255] [weight_off] (start_world float16))
     <-> spec_rejected 1 [weight_off]).
Proof.
  split; intros [_ H]; specialize (H spec_rejected_weight_off).
  - apply rbf_interpolation_rejects in H. apply rejected_iff in H.
    apply H. exact accepted_weight_off.
  - apply images_encoding_iffs in H. apply rejected_iff in H.
    apply H. exact accepted_weight_off.
Qed.

Lemma not_accepted_empty : ~ accepted 0 [].
Proof. intro H. exact (accepted_nonempty 0 [] H eq_refl). Qed.

Lemma check_blending_empty (w : world) :
  check_blending_weights [] [] w =
  (Raise (AssertionError "blending_weights must sum to 1."), w).
Proof.
  unfold check_blending_weights, lift.
  rewrite (check_weights_reject _ _ _ _ not_accepted_empty). reflexivity.
Qed.

(** C9: every blend called with no latents and no weights fails with the
    assertion error of the weight sum ([sum([]) = 0] is not close to 1),
    at once: the world is untouched, no VAE call and no tensor operation
    has happened, and no other exception is raised. *)
Theorem empty_input_fails_assertion (epsilon : num) (w : world) :
  images_encoding [] [] w
  = (Raise (AssertionError "blending_weights must sum to 1."), w) /\
  images_encoding_slerp [] [] w
  = (Raise (AssertionError "blending_weights must sum to 1."), w) /\
  images_encoding_barycentric [] [] w
  = (Raise (AssertionError "blending_weights must sum to 1."), w) /\
  images_encoding_rbf [] [] epsilon w
  = (Raise (AssertionError "blending_weights must sum to 1."), w) /\
  barycentric_interpolation [] [] = Raise (AssertionError "Weights must sum to 1.") /\
  rbf_interpolation [] [] epsilon = Raise (AssertionError "Weights must sum to 1.").
Proof.
  repeat split.
  - unfold images_encoding, bind. rewrite check_blending_empty. reflexivity.
  - unfold images_encoding_slerp, bind. rewrite check_blending_empty. reflexivity.
  - unfold images_encoding_barycentric, bind. rewrite check_blending_empty. reflexivity.
  - unfold images_encoding_rbf, bind. rewrite check_blending_empty. reflexivity.
  - unfold barycentric_interpolation.
    rewrite (check_weights_reject _ _ _ _ not_accepted_empty). reflexivity.
  - unfold rbf_interpolation.
    rewrite (check_weights_reject _ _ _ _ not_accepted_empty). reflexivity.
Qed.

(** ** The model after a call *)

Lemma blend_run_leaves_float16 {A} (w : world) (r : outcome A * world) :
  blend_run w r -> leaves_float16 w r.
Proof.
  intros [msg|a evs|e evs]; unfold leaves_float16; simpl.
  - left. reflexivity.
  - reflexivity.
  - right. reflexivity.
Qed.

Lemma set_vae_dtype_same (d : dtype) (m : StableDiffusionXLPipeline) :
  set_vae_dtype d m = m <-> vae_dtype m = d.
Proof.
  destruct m as [d' k enc]. unfold set_vae_dtype. simpl. split.
  - intro H. injection H as ->. reflexivity.
  - intros ->. reflexivity.
Qed.

(** C8 (as amended): a call of an [images_encoding*] function that returns
    leaves the model as it was on entry except for the precision of the
    VAE, which is [float16] whatever it was on entry (the call casts the VAE
    to [float32] and, on return, to [float16]); a call that raises leaves
    the model untouched or with its VAE in [float32]. *)
Theorem blends_leave_vae_in_float16
  (images : list Tensor) (ws : list num) (epsilon : num) (w : world) :
  leaves_float16 w (images_encoding images ws w) /\
  leaves_float16 w (images_encoding_slerp images ws w) /\
  leaves_float16 w (images_encoding_barycentric images ws w) /\
  leaves_float16 w (images_encoding_rbf images ws epsilon w).
Proof.
  repeat split; apply blend_run_leaves_float16.
  - apply images_encoding_run.
  - apply images_encoding_slerp_run.
  - apply images_encoding_barycentric_run.
  - apply images_encoding_rbf_run.
Qed.

Lemma accepted_one (n : nat) : n = 1%nat -> accepted n [one].
Proof.
  intros ->. split; [reflexivity|]. eexists. split; [reflexivity|].
  unfold atol, rtol. replace (0 + 1 - 1) with 0 by lra. rewrite Rabs_R0. lra.
Qed.

Lemma ndiv_fin (a b : R) : b <> 0 -> ndiv (Fin a) (Fin b) = Fin (a / b).
Proof. intro H. simpl. rewrite Req_b_false by assumption. reflexivity. Qed.

Lemma latent_of_pixel (d : dtype) (v : R) :
  latent_of (identity_vae d) (pixel v)
  = Ok {| shape := [1; 1; 1; 1]%nat; data := [Fin ((v / 255 * 2 + - (1)) * 1)] |}.
Proof.
  unfold latent_of, prepare, pixel, permute_201, tmap. cbn [shape data map].
  rewrite ndiv_fin by lra. reflexivity.
Qed.

Lemma encode_events_pixel (v : R) :
  encode_events (pixel v)
  = [VaeEncode {| shape := [1; 1; 1; 1]%nat; data := [Fin (v / 255 * 2 + - (1))] |}].
Proof.
  unfold encode_events, prepare, pixel, permute_201, tmap. cbn [shape data map].
  rewrite ndiv_fin by lra. reflexivity.
Qed.

Lemma images_encoding_pixel (d : dtype) :
  images_encoding [pixel 255] [one] (start_world d)
  = (Ok (Some {| shape := [1; 1; 1; 1]%nat;
                 data := [Fin ((255 / 255 * 2 + - (1)) * 1 * 1)] |}),
     {| model := identity_vae float16;
        trace := [VaeTo float32;
                  VaeEncode {| shape := [1; 1; 1; 1]%nat;
                               data := [Fin (255 / 255 * 2 + - (1))] |};
                  VaeTo float16] |}).
Proof.
  rewrite images_encoding_accepted by (apply accepted_one; reflexivity).
  unfold bind at 1. unfold vae_to at 1. unfold bind at 1.
  cbn [combine linear_loop]. unfold bind at 1. rewrite encode_latent_run.
  cbn [model start_world].
  change {| vae_dtype := float32;
            vae_scaling_factor := vae_scaling_factor (identity_vae d);
            vae_encode := vae_encode (identity_vae d) |}
    with (identity_vae float32).
  rewrite latent_of_pixel, encode_events_pixel. reflexivity.
Qed.

(** C8 as stated fails: a pipeline whose VAE is in [float32] on entry has
    it in [float16] when [images_encoding] returns, for one image with
    weight 1. *)
Lemma vae_precision_not_restored :
  exists t w',
    images_encoding [pixel 255] [one] (start_world float32) = (Ok (Some t), w') /\
    model w' <> model (start_world float32).
Proof.
  eexists. eexists. split; [apply images_encoding_pixel|].
  simpl. discriminate.
Qed.

(** ** The RBF blend does not read its weights *)

Lemma encode_all_length (images : list Tensor) :
  forall acc w ls w1,
    encode_all images acc w = (Ok ls, w1) ->
    length ls = (length acc + length images)%nat.
Proof.
  induction images as [|img rest IH]; intros acc w ls w1 H; simpl in H.
  - unfold ret in H. injection H as <- _. simpl. lia.
  - unfold bind in H. rewrite encode_latent_run in H.
    destruct (latent_of (model w) img) as [l|e]; [|discriminate].
    apply IH in H. rewrite length_app in H. simpl in *. lia.
Qed.

(** C2: for every list of latents, every epsilon and every two weight
    vectors that pass the assertions, [rbf_interpolation] returns the same
    result: the weights are only read by the assertions. *)
Theorem rbf_ignores_weights
  (latents : list Tensor) (ws ws' : list num) (epsilon : num) :
  accepted (length latents) ws -> accepted (length latents) ws' ->
  rbf_interpolation latents ws epsilon = rbf_interpolation latents ws' epsilon.
Proof.
  intros H H'. unfold rbf_interpolation.
  rewrite (check_weights_accept _ ws) by exact H.
  rewrite (check_weights_accept _ ws') by exact H'.
  reflexivity.
Qed.

(** The same through [images_encoding_rbf]. *)
Lemma images_encoding_rbf_ignores_weights
  (images : list Tensor) (ws ws' : list num) (epsilon : num) (w : world) :
  accepted (length images) ws -> accepted (length images) ws' ->
  images_encoding_rbf images ws epsilon w = images_encoding_rbf images ws' epsilon w.
Proof.
  intros H H'. rewrite !images_encoding_rbf_accepted by assumption.
  unfold bind, vae_to. simpl.
  destruct (encode_all images [] _) as [[ls|e] w1] eqn:R; [|reflexivity].
  apply encode_all_length in R. simpl in R.
  unfold lift, rbf_interpolation.
  rewrite (check_weights_accept _ ws) by (rewrite R; exact H).
  rewrite (check_weights_accept _ ws') by (rewrite R; exact H').
  reflexivity.
Qed.

Lemma accepted_weights_37 : accepted 2 weights_37.
Proof.
  split; [reflexivity|]. eexists. split; [reflexivity|].
  unfold atol, rtol. replace (0 + 3 / 10 + 7 / 10 - 1) with 0 by lra.
  rewrite Rabs_R0. lra.
Qed.

Lemma accepted_weights_55 : accepted 2 weights_55.
Proof.
  split; [reflexivity|]. eexists. split; [reflexivity|].
  unfold atol, rtol. replace (0 + 1 / 2 + 1 / 2 - 1) with 0 by lra.
  rewrite Rabs_R0. lra.
Qed.

(** C2 on two latents: the weights [0.3, 0.7] and [0.5, 0.5] give the same
    RBF blend. *)
Lemma rbf_ignores_weights_example :
  rbf_interpolation [scalar_latent 1; scalar_latent 3] weights_37 one
  = rbf_interpolation [scalar_latent 1; scalar_latent 3] weights_55 one.
Proof.
  apply (rbf_ignores_weights [scalar_latent 1; scalar_latent 3]
           weights_37 weights_55 one).
  - exact accepted_weights_37.
  - exact accepted_weights_55.
Defined.

(** ** The loops on known latents *)

Lemma cast_body_returns {A} (body : M A) (w : world) (r : A) (evs : list event) :
  body (cast32 w) = (Ok r, after (cast32 w) evs) ->
  (vae_to float32 ;; r <- body ;; vae_to float16 ;; ret r) w
  = (Ok r,
     {| model := set_vae_dtype float16 (model w);
        trace := trace w ++ VaeTo float32 :: evs ++ [VaeTo float16] |}).
Proof.
  intro H. unfold bind at 1. unfold vae_to at 1.
  change {| model := _; trace := trace w ++ [VaeTo float32] |} with (cast32 w).
  unfold bind at 1. rewrite H. unfold bind, vae_to, ret, after, cast32. simpl.
  rewrite <- !app_assoc. reflexivity.
Qed.

Lemma cast_body_raises {A} (body : M A) (w : world) (e : exn) (evs : list event) :
  body (cast32 w) = (Raise e, after (cast32 w) evs) ->
  (vae_to float32 ;; r <- body ;; vae_to float16 ;; ret r) w
  = (Raise e,
     {| model := set_vae_dtype float32 (model w);
        trace := trace w ++ VaeTo float32 :: evs |}).
Proof.
  intro H. unfold bind at 1. unfold vae_to at 1.
  change {| model := _; trace := trace w ++ [VaeTo float32] |} with (cast32 w).
  unfold bind at 1. rewrite H. unfold after, cast32. simpl.
  rewrite <- !app_assoc. reflexivity.
Qed.

Lemma linear_loop_latents (imgs lats : list Tensor) (m : StableDiffusionXLPipeline) :
  Forall2 (fun img l => latent_of m img = Ok l) imgs lats ->
  forall ws acc w r,
    model w = m -> length ws = length imgs ->
    linear_fold (combine lats ws) acc = Ok r ->
    linear_loop (combine imgs ws) acc w = (Ok r, after w (flat_map encode_events imgs)).
Proof.
  induction 1 as [|img l imgs lats Hl _ IH]; intros ws acc w r Hm Hlen Hf.
  - destruct ws; [|discriminate]. simpl in *. injection Hf as <-.
    unfold ret. rewrite after_nil. reflexivity.
  - destruct ws as [|wt ws]; [discriminate|]. simpl in Hlen, Hf |- *.
    unfold bind at 1. rewrite encode_latent_run, Hm, Hl.
    unfold bind at 1. unfold lift.
    destruct (match acc with
              | Some acc0 => iadd acc0 (tscale l wt)
              | None => Ok (tscale l wt)
              end) as [b|e]; [|discriminate].
    simpl in Hf. rewrite (IH ws (Some b) (after w (encode_events img)) r Hm (eq_add_S _ _ Hlen) Hf).
    rewrite after_after. reflexivity.
Qed.

Lemma slerp_loop_latents (imgs lats : list Tensor) (m : StableDiffusionXLPipeline) :
  Forall2 (fun img l => latent_of m img = Ok l) imgs lats ->
  forall ws acc w r,
    model w = m -> length ws = length imgs ->
    slerp_fold (combine lats ws) acc = Ok r ->
    slerp_loop (combine imgs ws) acc w = (Ok r, after w (flat_map encode_events imgs)).
Proof.
  induction 1 as [|img l imgs lats Hl _ IH]; intros ws acc w r Hm Hlen Hf.
  - destruct ws; [|discriminate]. simpl in *. injection Hf as <-.
    unfold ret. rewrite after_nil. reflexivity.
  - destruct ws as [|wt ws]; [discriminate|]. simpl in Hlen, Hf |- *.
    unfold bind at 1. rewrite encode_latent_run, Hm, Hl.
    unfold bind at 1. unfold lift.
    destruct (match acc with
              | Some acc0 => weighted_slerp wt acc0 l
              | None => Ok (tscale l wt)
              end) as [b|e]; [|discriminate].
    simpl in Hf. rewrite (IH ws (Some b) (after w (encode_events img)) r Hm (eq_add_S _ _ Hlen) Hf).
    rewrite after_after. reflexivity.
Qed.

Lemma encode_all_latents (imgs lats : list Tensor) (m : StableDiffusionXLPipeline) :
  Forall2 (fun img l => latent_of m img = Ok l) imgs lats ->
  forall acc w,
    model w = m ->
    encode_all imgs acc w = (Ok (acc ++ lats), after w (flat_map encode_events imgs)).
Proof.
  induction 1 as [|img l imgs lats Hl _ IH]; intros acc w Hm.
  - simpl. unfold ret. rewrite after_nil, app_nil_r. reflexivity.
  - simpl. unfold bind at 1. rewrite encode_latent_run, Hm, Hl.
    rewrite (IH (acc ++ [l]) (after w (encode_events img)) Hm).
    rewrite after_after, <- app_assoc. reflexivity.
Qed.

Lemma linear_fold_some (items : list (Tensor * num)) :
  forall acc,
    linear_fold items (Some acc)
    = (t <- barycentric_loop items acc ;; Ok (Some t))%outcome.
Proof.
  induction items as [|[l wt] rest IH]; intro acc; simpl.
  - reflexivity.
  - destruct (iadd acc (tscale l wt)) as [b|e]; simpl; [apply IH | reflexivity].
Qed.

Lemma zip_with_zero_l (d : list num) :
  zip_with nadd (repeat zero (length d)) d = d.
Proof.
  induction d as [|x d IH]; cbn [zip_with repeat length]; [reflexivity|].
  rewrite nadd_zero_l, IH. reflexivity.
Qed.

Lemma length_zip_with (f : num -> num -> num) (a b : list num) :
  length a = length b -> length (zip_with f a b) = length a.
Proof.
  revert b. induction a as [|x a IH]; intros [|y b] H; simpl in *;
    try reflexivity; try discriminate.
  rewrite IH by lia. reflexivity.
Qed.

Lemma wf_tscale (t : Tensor) (c : num) : wf t -> wf (tscale t c).
Proof. unfold wf, tscale, tmap. simpl. rewrite length_map. auto. Qed.

Lemma wf_zeros_like (t : Tensor) : wf (zeros_like t).
Proof. unfold wf, zeros_like. simpl. apply repeat_length. Qed.

Lemma iadd_zeros (l : Tensor) (c : num) :
  wf l -> iadd (zeros_like l) (tscale l c) = Ok (tscale l c).
Proof.
  intro H. rewrite iadd_same.
  - unfold zeros_like, tscale, tmap. simpl. f_equal. f_equal.
    rewrite <- H, <- (length_map (fun x => nmul x c)). apply zip_with_zero_l.
  - apply wf_zeros_like.
  - apply wf_tscale. exact H.
  - reflexivity.
Qed.

Lemma barycentric_loop_ok (s : list nat) (items : list (Tensor * num)) :
  Forall (fun it => wf (fst it) /\ shape (fst it) = s) items ->
  forall acc, wf acc -> shape acc = s ->
  exists t, barycentric_loop items acc = Ok t /\ wf t /\ shape t = s.
Proof.
  induction 1 as [|[l wt] rest [Hw Hs] _ IH]; intros acc Ha Hsa; simpl.
  - exists acc. auto.
  - simpl in Hw, Hs. rewrite iadd_same.
    + simpl. apply IH.
      * unfold wf in *. simpl. rewrite length_zip_with.
        -- exact Ha.
        -- rewrite length_map. rewrite Ha, Hw. congruence.
      * exact Hsa.
    + exact Ha.
    + apply wf_tscale. exact Hw.
    + simpl. congruence.
Qed.

(** ** Linear and barycentric blends *)

Lemma Forall_combine_fst {A B} (P : A -> Prop) (l : list A) (l' : list B) :
  Forall P l -> Forall (fun it => P (fst it)) (combine l l').
Proof.
  intro H. revert l'. induction H as [|a l Ha _ IH]; intros [|b l']; simpl;
    constructor; auto.
Qed.

(** C5: for every accepted list of weights and images whose latents are
    well-formed tensors of one shape, the linear blend [images_encoding] and
    the barycentric blend ([images_encoding_barycentric], and
    [barycentric_interpolation] on the latents) return the same tensor and
    leave the same world: adding the first weighted latent to the all-zero
    accumulator gives the first weighted latent. *)
Theorem linear_equals_barycentric
  (images lats : list Tensor) (ws : list num) (s : list nat) (w : world) :
  accepted (length images) ws ->
  encodes_to w images lats ->
  latents_of_shape s lats ->
  exists t,
    images_encoding images ws w = (Ok (Some t), returned_world w images) /\
    images_encoding_barycentric images ws w = (Ok t, returned_world w images) /\
    barycentric_interpolation lats ws = Ok t.
Proof.
  intros Hacc Henc Hsh.
  pose proof (accepted_nonempty _ _ Hacc) as Hne.
  pose proof (Forall2_length Henc) as Hlen.
  destruct Hacc as [Hn Hc].
  assert (Hacc' : accepted (length lats) ws) by (split; [congruence | exact Hc]).
  destruct lats as [|l0 lrest]; [simpl in Hlen; contradiction|].
  destruct ws as [|w0 wr]; [simpl in Hn; rewrite Hn in Hne; contradiction|].
  inversion Hsh as [|? ? [Hw0 Hs0] Hrest]; subst.
  destruct (barycentric_loop_ok (shape l0) (combine lrest wr)
              (Forall_combine_fst _ _ _ Hrest) (tscale l0 w0)
              (wf_tscale _ _ Hw0) eq_refl) as [t [Ht _]].
  assert (Hb : barycentric_interpolation (l0 :: lrest) (w0 :: wr) = Ok t).
  { unfold barycentric_interpolation. rewrite check_weights_accept by assumption.
    cbn [obind combine barycentric_loop]. rewrite iadd_zeros by assumption.
    exact Ht. }
  assert (Hf : linear_fold (combine (l0 :: lrest) (w0 :: wr)) None = Ok (Some t)).
  { cbn [combine linear_fold obind]. rewrite linear_fold_some, Ht. reflexivity. }
  exists t. split; [|split; [|exact Hb]].
  - rewrite images_encoding_accepted by (split; assumption).
    unfold returned_world. apply cast_body_returns.
    apply (linear_loop_latents images (l0 :: lrest) _ Henc); auto.
  - rewrite images_encoding_barycentric_accepted by (split; assumption).
    unfold returned_world. apply cast_body_returns.
    unfold bind. rewrite (encode_all_latents images (l0 :: lrest) _ Henc) by reflexivity.
    unfold lift. cbn [app]. rewrite Hb. reflexivity.
Qed.

Lemma encodes_to_pixels (d : dtype) (vs : list R) :
  encodes_to (start_world d) (map pixel vs) (map pixel_latent vs).
Proof.
  unfold encodes_to. induction vs as [|v vs IH]; simpl; constructor.
  - apply (latent_of_pixel float32).
  - exact IH.
Qed.

Lemma pixel_latents_shape (vs : list R) :
  latents_of_shape [1; 1; 1; 1]%nat (map pixel_latent vs).
Proof.
  unfold latents_of_shape. induction vs as [|v vs IH]; simpl; constructor.
  - split; reflexivity.
  - exact IH.
Qed.

(** C5 on two one-pixel images with weights [0.5, 0.5]. *)
Lemma linear_equals_barycentric_example :
  exists t,
    images_encoding [pixel 255; pixel 0] weights_55 (start_world float16)
    = (Ok (Some t), returned_world (start_world float16) [pixel 255; pixel 0]) /\
    images_encoding_barycentric [pixel 255; pixel 0] weights_55 (start_world float16)
    = (Ok t, returned_world (start_world float16) [pixel 255; pixel 0]) /\
    barycentric_interpolation [pixel_latent 255; pixel_latent 0] weights_55 = Ok t.
Proof.
  apply (linear_equals_barycentric [pixel 255; pixel 0]
           [pixel_latent 255; pixel_latent 0] weights_55 [1; 1; 1; 1]%nat
           (start_world float16)).
  - exact accepted_weights_55.
  - exact (encodes_to_pixels float16 [255; 0]).
  - exact (pixel_latents_shape [255; 0]).
Defined.

(** ** The RBF blend *)

Lemma shape_eqb_refl (s : list nat) : shape_eqb s s = true.
Proof. unfold shape_eqb. destruct (list_eq_dec Nat.eq_dec s s); [reflexivity | contradiction]. Qed.

Lemma stack_equal_shapes (l0 : Tensor) (rest : list Tensor) :
  Forall (fun l => shape l = shape l0) rest ->
  stack (l0 :: rest)
  = Ok {| shape := length (l0 :: rest) :: shape l0;
          data := flat_map data (l0 :: rest) |}.
Proof.
  intro H. unfold stack.
  replace (forallb (fun u => shape_eqb (shape u) (shape l0)) rest) with true;
    [reflexivity|].
  symmetry. apply forallb_forall. intros u Hu.
  rewrite Forall_forall in H. rewrite (H u Hu). apply shape_eqb_refl.
Qed.

Lemma view_rows_stacked (n : nat) (s : list nat) (d : list num) :
  n <> 0%nat ->
  view_rows n {| shape := n :: s; data := d |}
  = Ok {| shape := [n; numel s]; data := d |}.
Proof.
  intro H. unfold view_rows. cbn [shape data numel fold_right].
  destruct (Nat.eqb_spec n 0) as [E|_]; [contradiction|].
  fold (numel s). rewrite (Nat.mul_comm n (numel s)), Nat.Div0.mod_mul.
  rewrite Nat.eqb_refl, Nat.div_mul by assumption. reflexivity.
Qed.

Lemma length_flat_map_const {A} (f : A -> list num) (k : nat) (l : list A) :
  (forall a, In a l -> length (f a) = k) ->
  length (flat_map f l) = (length l * k)%nat.
Proof.
  induction l as [|a l IH]; intro H; simpl; [reflexivity|].
  rewrite length_app, (H a) by (left; reflexivity).
  rewrite IH; [reflexivity|]. intros b Hb. apply H. right. exact Hb.
Qed.

Lemma length_rbf_kernel (d n : nat) (flat : list num) (epsilon : num) :
  length (rbf_kernel d n flat epsilon) = (n * n)%nat.
Proof.
  unfold rbf_kernel. rewrite length_map.
  rewrite (length_flat_map_const _ n).
  - rewrite length_chunks. reflexivity.
  - intros a _. rewrite length_map, length_chunks. reflexivity.
Qed.

(** [rbf_interpolation] on accepted weights and latents of one shape. *)
Lemma rbf_interpolation_equal_shapes
  (l0 : Tensor) (rest : list Tensor) (ws : list num) (epsilon : num) :
  Forall (fun l => shape l = shape l0) rest ->
  accepted (length (l0 :: rest)) ws ->
  rbf_interpolation (l0 :: rest) ws epsilon
  = Ok {| shape := length (l0 :: rest) :: shape l0;
          data := rbf_elements (numel (shape l0)) (length (l0 :: rest))
                    (flat_map data (l0 :: rest)) epsilon |}.
Proof.
  intros Hs Hacc. unfold rbf_interpolation.
  rewrite check_weights_accept by assumption. cbn [obind].
  rewrite stack_equal_shapes by assumption. cbn [obind].
  set (n := length (l0 :: rest)). set (flat := flat_map data (l0 :: rest)).
  rewrite view_rows_stacked by (subst n; discriminate). cbn [obind].
  unfold cdist. cbn [shape data]. rewrite Nat.eqb_refl. cbn [obind].
  set (K := gaussian_rbf _ epsilon).
  assert (EK : data K = rbf_kernel (numel (shape l0)) n flat epsilon) by reflexivity.
  assert (SK : shape K = [n] ++ [n]) by reflexivity.
  rewrite (binop_keepdim_r ndiv K (sum_last K) [n] n SK).
  - cbn [obind]. unfold einsum_ij_i_j. cbn [shape data app].
    rewrite Nat.eqb_refl. unfold rbf_elements, row_normalized.
    rewrite EK. unfold sum_last, reduce_last, rows. rewrite SK, EK.
    cbn [data app last_dim last removelast numel fold_right].
    rewrite Nat.mul_1_r. reflexivity.
  - reflexivity.
  - unfold wf. rewrite EK, SK, length_rbf_kernel.
    cbn [numel fold_right app]. rewrite Nat.mul_1_r. reflexivity.
  - unfold wf, sum_last, reduce_last, rows. rewrite SK.
    cbn [data shape keepdim_shape app removelast last_dim last numel fold_right].
    rewrite length_map, length_chunks. reflexivity.
Qed.

(** C4 at a failing input: for the two latents [[1.0]] and [[3.0]] of
    shape [(1,)] with weights [0.5, 0.5], [rbf_interpolation] returns a
    tensor of shape [(2, 1)], one blend per latent, and not a tensor of the
    shape [(1,)] of a latent. *)
Theorem rbf_returns_one_blend_per_latent :
  exists t,
    rbf_interpolation [scalar_latent 1; scalar_latent 3] weights_55 one = Ok t /\
    shape t = [2; 1]%nat /\
    shape t <> shape (scalar_latent 1).
Proof.
  eexists. split; [|split].
  - apply (rbf_interpolation_equal_shapes (scalar_latent 1) [scalar_latent 3]).
    + repeat constructor.
    + exact accepted_weights_55.
  - reflexivity.
  - discriminate.
Qed.

(** The shape of the RBF blend of [n] latents of shape [s] is [n :: s]. *)
Lemma rbf_interpolation_shape (latents : list Tensor) (ws : list num)
  (epsilon : num) (s : list nat) :
  accepted (length latents) ws ->
  Forall (fun l => shape l = s) latents ->
  exists t, rbf_interpolation latents ws epsilon = Ok t /\
            shape t = length latents :: s.
Proof.
  intros Hacc Hs. destruct latents as [|l0 rest].
  - exfalso. exact (accepted_nonempty _ _ Hacc eq_refl).
  - inversion Hs as [|? ? H0 Hrest]; subst. eexists. split.
    + apply rbf_interpolation_equal_shapes; [|exact Hacc].
      eapply Forall_impl; [|exact Hrest]. intros l Hl. exact Hl.
    + reflexivity.
Qed.

(** *** One latent *)

Arguments nadd : simpl never.
Arguments nmul : simpl never.
Arguments ndiv : simpl never.
Arguments nsub : simpl never.
Arguments nneg : simpl never.
Arguments nsqrt : simpl never.
Arguments nexp : simpl never.
Arguments nsin : simpl never.
Arguments nacos : simpl never.
Arguments nsquare : simpl never.

Lemma nsquare_diff_self (x : num) : finite x -> nsquare (nsub x x) = zero.
Proof.
  intros [r ->]. unfold nsquare, nsub, nneg, nadd, nmul, zero. f_equal. ring.
Qed.

Lemma py_sum_zeros (l : list num) : Forall (eq zero) l -> py_sum l = zero.
Proof.
  unfold py_sum. induction 1 as [|x l <- _ IH]; simpl; [reflexivity|].
  rewrite nadd_zero_l. exact IH.
Qed.

Lemma nsqrt_zero : nsqrt zero = zero.
Proof.
  unfold nsqrt, zero. rewrite Rlt_b_false by lra. rewrite sqrt_0. reflexivity.
Qed.

Lemma euclid_self (d : list num) : Forall finite d -> euclid d d = zero.
Proof.
  intro H. unfold euclid. rewrite py_sum_zeros; [apply nsqrt_zero|].
  induction H as [|x d Hx _ IH]; simpl; constructor.
  - symmetry. apply nsquare_diff_self. exact Hx.
  - exact IH.
Qed.

Lemma gaussian_at_zero (e : R) : nexp (nneg (nsquare (nmul (Fin e) zero))) = one.
Proof.
  unfold nexp, nneg, nsquare, nmul, zero, one. f_equal.
  replace (- (e * 0 * (e * 0))) with 0 by ring. apply exp_0.
Qed.

Lemma chunks_one (d : list num) : chunks (length d) 1 d = [d].
Proof. unfold chunks. simpl. rewrite firstn_all. reflexivity. Qed.

Lemma rbf_kernel_single (d : list num) (e : R) :
  Forall finite d -> rbf_kernel (length d) 1 d (Fin e) = [one].
Proof.
  intro H. unfold rbf_kernel. rewrite chunks_one. simpl.
  rewrite euclid_self by assumption. rewrite gaussian_at_zero. reflexivity.
Qed.

Lemma row_normalized_one : row_normalized 1 [one] = [one].
Proof.
  unfold row_normalized. change 1%nat with (length [one]) at 1 2.
  rewrite chunks_one. simpl. unfold py_sum. simpl.
  rewrite nadd_zero_l. unfold one. rewrite ndiv_self by lra. reflexivity.
Qed.

Lemma map_nmul_one (d : list num) : map (nmul one) d = d.
Proof.
  induction d as [|x d IH]; simpl; [reflexivity|].
  rewrite nmul_one_l, IH. reflexivity.
Qed.

Lemma rbf_elements_single (d : list num) (e : R) :
  Forall finite d -> rbf_elements (length d) 1 d (Fin e) = d.
Proof.
  intro H. unfold rbf_elements. rewrite rbf_kernel_single by assumption.
  rewrite row_normalized_one. change 1%nat with (length [one]) at 1 2.
  rewrite !chunks_one. simpl. rewrite app_nil_r.
  unfold weighted_sum. simpl. rewrite map_nmul_one. apply zip_with_zero_l.
Qed.

Lemma rbf_interpolation_single (L : Tensor) (ws : list num) (epsilon : num) :
  accepted 1 ws ->
  rbf_interpolation [L] ws epsilon
  = Ok {| shape := 1%nat :: shape L;
          data := rbf_elements (numel (shape L)) 1 (data L) epsilon |}.
Proof.
  intro H. rewrite rbf_interpolation_equal_shapes; [|constructor|exact H].
  cbn [length flat_map]. rewrite app_nil_r. reflexivity.
Qed.

(** What the blend of a single latent [L] with finite elements is, for
    every finite epsilon: the elements of [L] (the distance of [L] to
    itself is 0, the 1 x 1 kernel is [[1]], it normalizes to [[1]]) under
    one more leading axis of length 1. *)
Lemma rbf_interpolation_single_finite (L : Tensor) (ws : list num) (e : R) :
  wf L -> Forall finite (data L) -> accepted 1 ws ->
  rbf_interpolation [L] ws (Fin e)
  = Ok {| shape := 1%nat :: shape L; data := data L |}.
Proof.
  intros Hwf Hfin Hacc. unfold wf in Hwf.
  rewrite rbf_interpolation_single by exact Hacc.
  rewrite <- Hwf, rbf_elements_single by exact Hfin. reflexivity.
Qed.

(** C7 at a failing input: for the single latent [[1.0]] of shape [(1,)],
    the weight [1.0] and epsilon 1.0, the RBF blend returns the tensor
    [[[1.0]]] of shape [(1, 1)], the element of the latent under one more
    leading axis, and not the latent [[1.0]] itself. *)
Theorem rbf_single_latent_gains_an_axis :
  rbf_interpolation [scalar_latent 1] [one] one
  = Ok {| shape := [1; 1]%nat; data := [Fin 1] |} /\
  rbf_interpolation [scalar_latent 1] [one] one <> Ok (scalar_latent 1).
Proof.
  assert (E : rbf_interpolation [scalar_latent 1] [one] one
              = Ok {| shape := [1; 1]%nat; data := [Fin 1] |}).
  { apply (rbf_interpolation_single_finite (scalar_latent 1) [one] 1).
    - reflexivity.
    - repeat constructor. eexists. reflexivity.
    - apply accepted_one. reflexivity. }
  split; [exact E|].
  rewrite E. unfold scalar_latent. intro H. discriminate H.
Qed.

(** ** Tensors as lists of vectors along the last axis *)

Lemma shape_cases (s : list nat) : s = [] \/ exists init D, s = init ++ [D].
Proof.
  destruct s as [|x s']; [left; reflexivity | right].
  destruct (exists_last (l := x :: s')) as [init [D E]]; [discriminate|].
  exists init, D. exact E.
Qed.

Lemma numel_split (s : list nat) :
  numel s = (numel (removelast s) * last_dim s)%nat.
Proof.
  destruct (shape_cases s) as [->|[init [D ->]]].
  - reflexivity.
  - unfold last_dim. rewrite removelast_last, last_last, numel_app. simpl. lia.
Qed.

Lemma keepdim_shape_snoc (init : list nat) (D : nat) :
  keepdim_shape (init ++ [D]) = init ++ [1%nat].
Proof.
  unfold keepdim_shape. destruct (init ++ [D]) as [|x l] eqn:E.
  - destruct init; discriminate.
  - rewrite <- E, removelast_last. reflexivity.
Qed.

Lemma numel_keepdim (s : list nat) :
  numel (keepdim_shape s) = numel (removelast s).
Proof.
  destruct (shape_cases s) as [->|[init [D ->]]].
  - reflexivity.
  - rewrite keepdim_shape_snoc, removelast_last, numel_app. simpl. lia.
Qed.

Lemma spread_one (cs : list num) : spread 1 cs = cs.
Proof.
  unfold spread. induction cs as [|c cs IH]; [reflexivity|].
  cbn [flat_map repeat app]. f_equal. exact IH.
Qed.

Lemma binop_keep_r (f : num -> num -> num) (a k : Tensor) :
  wf a -> shape k = keepdim_shape (shape a) ->
  length (data k) = numel (removelast (shape a)) ->
  binop f a k
  = Ok {| shape := shape a;
          data := zip_with f (data a) (spread (last_dim (shape a)) (data k)) |}.
Proof.
  intros Wa Sk Lk.
  assert (Wk : wf k) by (unfold wf; rewrite Sk, numel_keepdim; exact Lk).
  destruct (shape_cases (shape a)) as [E|[init [D E]]]; rewrite E in *.
  - rewrite (binop_same f a k Wa Wk) by (rewrite E; exact Sk).
    unfold last_dim. simpl last. rewrite spread_one, E. reflexivity.
  - rewrite keepdim_shape_snoc in Sk. unfold last_dim. rewrite last_last.
    apply binop_keepdim_r; assumption.
Qed.

Lemma binop_keep_l (f : num -> num -> num) (k a : Tensor) :
  wf a -> shape k = keepdim_shape (shape a) ->
  length (data k) = numel (removelast (shape a)) ->
  binop f k a
  = Ok {| shape := shape a;
          data := zip_with f (spread (last_dim (shape a)) (data k)) (data a) |}.
Proof.
  intros Wa Sk Lk.
  assert (Wk : wf k) by (unfold wf; rewrite Sk, numel_keepdim; exact Lk).
  destruct (shape_cases (shape a)) as [E|[init [D E]]]; rewrite E in *.
  - rewrite (binop_same f k a Wk Wa) by (rewrite E; symmetry; exact Sk).
    unfold last_dim. simpl last. rewrite spread_one, Sk. reflexivity.
  - rewrite keepdim_shape_snoc in Sk. unfold last_dim. rewrite last_last.
    apply binop_keepdim_l; assumption.
Qed.

Lemma rows_concat (t : Tensor) : wf t -> concat (rows t) = data t.
Proof.
  intro H. unfold rows. apply concat_chunks.
  unfold wf in H. rewrite H. apply numel_split.
Qed.

Lemma rows_lengths (t : Tensor) :
  wf t -> Forall (fun r => length r = last_dim (shape t)) (rows t).
Proof.
  intro H. unfold rows. apply chunks_length.
  unfold wf in H. rewrite H. apply numel_split.
Qed.

Lemma length_rows (t : Tensor) : length (rows t) = numel (removelast (shape t)).
Proof. unfold rows. apply length_chunks. Qed.

Lemma chunks_concat (D : nat) (rs : list (list num)) :
  Forall (fun r => length r = D) rs -> chunks D (length rs) (concat rs) = rs.
Proof.
  induction 1 as [|r rs Hr _ IH]; [reflexivity|].
  simpl. rewrite chunks_app by exact Hr. rewrite IH. reflexivity.
Qed.

Lemma length_concat_rows (D : nat) (rs : list (list num)) :
  Forall (fun r => length r = D) rs -> length (concat rs) = (length rs * D)%nat.
Proof.
  induction 1 as [|r rs Hr _ IH]; [reflexivity|].
  simpl. rewrite length_app, IH, Hr. reflexivity.
Qed.

Lemma zip_with_nil_r (f : num -> num -> num) (a : list num) : zip_with f a [] = [].
Proof. destruct a; reflexivity. Qed.

Lemma zip_with_app (f : num -> num -> num) (a b c d : list num) :
  length a = length c ->
  zip_with f (a ++ b) (c ++ d) = zip_with f a c ++ zip_with f b d.
Proof.
  revert c. induction a as [|x a IH]; intros [|y c] H; try discriminate.
  - reflexivity.
  - cbn [app zip_with]. rewrite IH by (simpl in H; lia). reflexivity.
Qed.

Lemma zip_with_repeat_r (f : num -> num -> num) (r : list num) (c : num) :
  zip_with f r (repeat c (length r)) = map (fun x => f x c) r.
Proof.
  induction r as [|x r IH]; [reflexivity|].
  cbn [length repeat zip_with map]. rewrite IH. reflexivity.
Qed.

Lemma zip_with_repeat_l (f : num -> num -> num) (c : num) (r : list num) :
  zip_with f (repeat c (length r)) r = map (f c) r.
Proof.
  induction r as [|x r IH]; [reflexivity|].
  cbn [length repeat zip_with map]. rewrite IH. reflexivity.
Qed.

Lemma zip_with_spread_r (f : num -> num -> num) (D : nat) (rs : list (list num)) :
  Forall (fun r => length r = D) rs ->
  forall cs,
    zip_with f (concat rs) (spread D cs)
    = concat (map2 (fun r c => map (fun x => f x c) r) rs cs).
Proof.
  unfold spread. induction 1 as [|r rs Hr _ IH]; intros [|c cs]; try reflexivity.
  - cbn [concat map2 flat_map]. apply zip_with_nil_r.
  - cbn [concat map2 flat_map].
    rewrite zip_with_app by (rewrite repeat_length; exact Hr).
    rewrite IH. rewrite <- Hr, zip_with_repeat_r. reflexivity.
Qed.

Lemma zip_with_spread_l (f : num -> num -> num) (D : nat) (rs : list (list num)) :
  Forall (fun r => length r = D) rs ->
  forall cs,
    zip_with f (spread D cs) (concat rs)
    = concat (map2 (fun c r => map (f c) r) cs rs).
Proof.
  unfold spread. induction 1 as [|r rs Hr _ IH]; intros [|c cs]; try reflexivity.
  - cbn [concat map2]. apply zip_with_nil_r.
  - cbn [concat map2 flat_map].
    rewrite zip_with_app by (rewrite repeat_length; symmetry; exact Hr).
    rewrite IH. rewrite <- Hr, zip_with_repeat_l. reflexivity.
Qed.

Lemma zip_with_concat (f : num -> num -> num) (D : nat) (rs1 : list (list num)) :
  Forall (fun r => length r = D) rs1 ->
  forall rs2,
    Forall (fun r => length r = D) rs2 ->
    zip_with f (concat rs1) (concat rs2) = concat (map2 (zip_with f) rs1 rs2).
Proof.
  induction 1 as [|r1 rs1 H1 _ IH]; intros rs2 H2.
  - reflexivity.
  - destruct H2 as [|r2 rs2 Hr2 H2].
    + cbn [concat map2]. apply zip_with_nil_r.
    + cbn [concat map2]. rewrite zip_with_app by congruence.
      rewrite IH by assumption. reflexivity.
Qed.

Lemma zip_with_map_map (f : num -> num -> num) (g h : num -> num) (l : list num) :
  zip_with f (map g l) (map h l) = map (fun x => f (g x) (h x)) l.
Proof.
  induction l as [|x l IH]; [reflexivity|].
  cbn [map zip_with]. rewrite IH. reflexivity.
Qed.

Lemma map2_map_self {A B C} (g : A -> B -> C) (h : A -> B) (l : list A) :
  map2 g l (map h l) = map (fun x => g x (h x)) l.
Proof. induction l as [|x l IH]; simpl; [reflexivity | rewrite IH; reflexivity]. Qed.

Lemma length_map2 {A B C} (g : A -> B -> C) (a : list A) (b : list B) :
  length a = length b -> length (map2 g a b) = length a.
Proof.
  revert b. induction a as [|x a IH]; intros [|y b] H; try discriminate;
    [reflexivity|]. simpl. rewrite IH by (simpl in H; lia). reflexivity.
Qed.

Lemma Forall_map2_rows {A} (g : A -> list num -> list num) (D : nat)
  (cs : list A) (rs : list (list num)) :
  (forall c r, length (g c r) = length r) ->
  Forall (fun r => length r = D) rs ->
  Forall (fun r => length r = D) (map2 g cs rs).
Proof.
  intros Hg H. revert cs. induction H as [|r rs Hr _ IH]; intros [|c cs];
    simpl; constructor.
  - rewrite Hg. exact Hr.
  - apply IH.
Qed.

Lemma Forall_map_rows (g : list num -> list num) (D : nat) (rs : list (list num)) :
  (forall r, length (g r) = length r) ->
  Forall (fun r => length r = D) rs ->
  Forall (fun r => length r = D) (map g rs).
Proof.
  intros Hg H. induction H as [|r rs Hr _ IH]; simpl; constructor.
  - rewrite Hg. exact Hr.
  - exact IH.
Qed.

Lemma Forall_zip_rows (f : num -> num -> num) (D : nat) (rs1 : list (list num)) :
  Forall (fun r => length r = D) rs1 ->
  forall rs2,
    Forall (fun r => length r = D) rs2 ->
    Forall (fun r => length r = D) (map2 (zip_with f) rs1 rs2).
Proof.
  induction 1 as [|r1 rs1 H1 _ IH]; intros rs2 H2; [constructor|].
  destruct H2 as [|r2 rs2 Hr2 H2]; simpl; constructor.
  - rewrite length_zip_with by congruence. exact H1.
  - apply IH. exact H2.
Qed.

Lemma rows_of_concat (s : list nat) (rs : list (list num)) :
  Forall (fun r => length r = last_dim s) rs ->
  length rs = numel (removelast s) ->
  rows {| shape := s; data := concat rs |} = rs.
Proof.
  intros H L. unfold rows. cbn [shape data]. rewrite <- L.
  apply chunks_concat. exact H.
Qed.

Lemma wf_of_concat (s : list nat) (rs : list (list num)) :
  Forall (fun r => length r = last_dim s) rs ->
  length rs = numel (removelast s) ->
  wf {| shape := s; data := concat rs |}.
Proof.
  intros H L. unfold wf. cbn [shape data].
  rewrite (length_concat_rows _ _ H), L. symmetry. apply numel_split.
Qed.

(** ** The weighted slerp, vector by vector *)

Lemma normalize_rows (v : Tensor) :
  wf v ->
  binop ndiv v (norm_last v)
  = Ok {| shape := shape v; data := concat (map unit_vector (rows v)) |}.
Proof.
  intro H. rewrite binop_keep_r.
  - f_equal. f_equal. unfold norm_last, reduce_last. cbn [data].
    rewrite <- (rows_concat v H) at 1.
    rewrite (zip_with_spread_r ndiv _ _ (rows_lengths v H)).
    rewrite map2_map_self. reflexivity.
  - exact H.
  - reflexivity.
  - unfold norm_last, reduce_last. cbn [data]. rewrite length_map. apply length_rows.
Qed.

Lemma length_unit_vector (r : list num) : length (unit_vector r) = length r.
Proof. unfold unit_vector. apply length_map. Qed.

Lemma slerp_rows_assemble (t : num) : forall A0 A1 : list (list num),
  map2 (zip_with nadd)
    (map2 (fun c r => map (nmul c) r)
       (zip_with ndiv
          (map nsin (map (nmul (nsub one t))
             (map nacos (map py_sum
                (map2 (zip_with nmul) (map unit_vector A0) (map unit_vector A1))))))
          (map nsin
             (map nacos (map py_sum
                (map2 (zip_with nmul) (map unit_vector A0) (map unit_vector A1))))))
       A0)
    (map2 (fun c r => map (nmul c) r)
       (zip_with ndiv
          (map nsin (map (nmul t)
             (map nacos (map py_sum
                (map2 (zip_with nmul) (map unit_vector A0) (map unit_vector A1))))))
          (map nsin
             (map nacos (map py_sum
                (map2 (zip_with nmul) (map unit_vector A0) (map unit_vector A1))))))
       A1)
  = map2 (slerp_row t) A0 A1.
Proof.
  induction A0 as [|r0 A0 IH]; intros [|r1 A1]; try reflexivity.
  cbn [map map2 zip_with]. rewrite IH. reflexivity.
Qed.

Lemma weighted_slerp_rows (t : num) (v0 v1 : Tensor) :
  wf v0 -> wf v1 -> shape v1 = shape v0 ->
  weighted_slerp t v0 v1 = Ok (weighted_slerp_spec t v0 v1).
Proof.
  intros W0 W1 S. unfold weighted_slerp.
  rewrite (normalize_rows v0 W0), (normalize_rows v1 W1). cbn [obind].
  pose proof (rows_lengths v0 W0) as L0. pose proof (rows_lengths v1 W1) as L1.
  pose proof (length_rows v0) as N0. pose proof (length_rows v1) as N1.
  rewrite S in L1, N1.
  set (s := shape v0) in *. set (A0 := rows v0) in *. set (A1 := rows v1) in *.
  rewrite S.
  assert (U0 : Forall (fun r => length r = last_dim s) (map unit_vector A0))
    by (apply Forall_map_rows; [apply length_unit_vector | exact L0]).
  assert (U1 : Forall (fun r => length r = last_dim s) (map unit_vector A1))
    by (apply Forall_map_rows; [apply length_unit_vector | exact L1]).
  rewrite binop_same;
    [| apply wf_of_concat; [exact U0 | rewrite length_map; exact N0]
     | apply wf_of_concat; [exact U1 | rewrite length_map; exact N1]
     | reflexivity ].
  cbn [obind shape data].
  rewrite (zip_with_concat nmul _ _ U0 _ U1).
  set (P := map2 (zip_with nmul) (map unit_vector A0) (map unit_vector A1)).
  assert (LP : length P = numel (removelast s)).
  { unfold P. rewrite length_map2; rewrite !length_map; congruence. }
  assert (FP : Forall (fun r => length r = last_dim s) P)
    by (apply Forall_zip_rows; assumption).
  unfold sum_last, reduce_last. cbn [shape].
  rewrite (rows_of_concat s P FP LP).
  unfold tmap. cbn [shape data].
  set (Om := map nacos (map py_sum P)).
  assert (LO : length Om = numel (removelast s))
    by (unfold Om; rewrite !length_map; exact LP).
  rewrite binop_same;
    [| unfold wf; cbn [shape data]; rewrite !length_map, numel_keepdim; exact LO
     | unfold wf; cbn [shape data]; rewrite !length_map, numel_keepdim; exact LO
     | reflexivity ].
  cbn [obind shape data].
  set (C0 := zip_with ndiv (map nsin (map (nmul (nsub one t)) Om)) (map nsin Om)).
  set (C1 := zip_with ndiv (map nsin (map (nmul t) Om)) (map nsin Om)).
  assert (LC0 : length C0 = numel (removelast s))
    by (unfold C0; rewrite length_zip_with; rewrite !length_map; congruence).
  assert (LC1 : length C1 = numel (removelast s))
    by (unfold C1; rewrite length_zip_with; rewrite !length_map; congruence).
  rewrite (binop_keep_l nmul _ v0 W0) by (cbn [shape data]; assumption || reflexivity).
  cbn [obind shape data]. fold s.
  rewrite binop_same;
    [| unfold wf; cbn [shape data]; rewrite !length_map, numel_keepdim; exact LO
     | unfold wf; cbn [shape data]; rewrite !length_map, numel_keepdim; exact LO
     | reflexivity ].
  cbn [obind shape data]. fold C1.
  rewrite (binop_keep_l nmul _ v1 W1)
    by (cbn [shape data]; rewrite ?S; assumption || reflexivity).
  cbn [obind shape data]. rewrite S.
  rewrite <- (rows_concat v0 W0), <- (rows_concat v1 W1). fold A0 A1.
  rewrite (zip_with_spread_l nmul _ _ L0), (zip_with_spread_l nmul _ _ L1).
  assert (G0 : Forall (fun r => length r = last_dim s)
                      (map2 (fun c r => map (nmul c) r) C0 A0))
    by (apply Forall_map2_rows; [intros; apply length_map | exact L0]).
  assert (G1 : Forall (fun r => length r = last_dim s)
                      (map2 (fun c r => map (nmul c) r) C1 A1))
    by (apply Forall_map2_rows; [intros; apply length_map | exact L1]).
  rewrite binop_same;
    [| apply wf_of_concat; [exact G0 | rewrite length_map2; congruence]
     | apply wf_of_concat; [exact G1 | rewrite length_map2; congruence]
     | reflexivity ].
  cbn [shape data]. rewrite (zip_with_concat nadd _ _ G0 _ G1).
  unfold weighted_slerp_spec. fold s A0 A1. f_equal. f_equal. f_equal.
  apply slerp_rows_assemble.
Qed.

Lemma length_slerp_row (t : num) (r0 r1 : list num) :
  length r0 = length r1 -> length (slerp_row t r0 r1) = length r0.
Proof.
  intro H. unfold slerp_row. rewrite length_zip_with; rewrite !length_map; auto.
Qed.

Lemma Forall_map2_both (g : list num -> list num -> list num) (D : nat)
  (rs0 : list (list num)) :
  (forall r0 r1, length r0 = D -> length r1 = D -> length (g r0 r1) = D) ->
  Forall (fun r => length r = D) rs0 ->
  forall rs1,
    Forall (fun r => length r = D) rs1 ->
    Forall (fun r => length r = D) (map2 g rs0 rs1).
Proof.
  intros Hg H0. induction H0 as [|r0 rs0 Hr0 _ IH]; intros rs1 H1; [constructor|].
  destruct H1 as [|r1 rs1 Hr1 H1]; simpl; constructor.
  - apply Hg; assumption.
  - apply IH. exact H1.
Qed.

Lemma wf_weighted_slerp_spec (t : num) (v0 v1 : Tensor) :
  wf v0 -> wf v1 -> shape v1 = shape v0 -> wf (weighted_slerp_spec t v0 v1).
Proof.
  intros W0 W1 S. unfold weighted_slerp_spec. apply wf_of_concat.
  - apply Forall_map2_both.
    + intros r0 r1 H0 H1. rewrite length_slerp_row; congruence.
    + apply rows_lengths. exact W0.
    + rewrite <- S. apply rows_lengths. exact W1.
  - rewrite length_map2; rewrite !length_rows; [reflexivity | congruence].
Qed.

Lemma slerp_fold_some (s : list nat) (items : list (Tensor * num)) :
  Forall (fun it => wf (fst it) /\ shape (fst it) = s) items ->
  forall acc, wf acc -> shape acc = s ->
    slerp_fold items (Some acc)
    = Ok (Some (fold_left (fun r lw => weighted_slerp_spec (snd lw) r (fst lw))
                          items acc)).
Proof.
  induction 1 as [|[l wt] rest [Hw Hs] _ IH]; intros acc Wa Sa.
  - reflexivity.
  - cbn [slerp_fold fold_left fst snd] in *.
    rewrite weighted_slerp_rows by congruence. cbn [obind].
    apply IH.
    + apply wf_weighted_slerp_spec; congruence.
    + exact Sa.
Qed.

(** C6: for every accepted list of weights and images whose latents are
    well-formed tensors of one shape, the slerp blend returns the
    left-to-right fold of the specification: it starts with the first latent
    multiplied by its own weight and combines the running result [r] with
    each next latent [L_k] as [weighted_slerp(w_k, r, L_k)]; and
    [weighted_slerp] is, vector by vector along the last axis,
    [sin((1-t)w)/sin(w) * v0 + sin(t w)/sin(w) * v1] on the vectors
    themselves, with the angle [w] taken from their unit-normalized copies. *)
Theorem slerp_blend_is_spec_fold
  (images lats : list Tensor) (ws : list num) (s : list nat) (w : world)
  (t : num) (v0 v1 : Tensor) :
  accepted (length images) ws ->
  encodes_to w images lats ->
  latents_of_shape s lats ->
  wf v0 -> wf v1 -> shape v1 = shape v0 ->
  weighted_slerp t v0 v1 = Ok (weighted_slerp_spec t v0 v1) /\
  exists blended,
    slerp_blend_spec lats ws = Some blended /\
    images_encoding_slerp images ws w = (Ok (Some blended), returned_world w images).
Proof.
  intros Hacc Henc Hsh W0 W1 S.
  split; [apply weighted_slerp_rows; assumption|].
  pose proof (accepted_nonempty _ _ Hacc) as Hne.
  pose proof (Forall2_length Henc) as Hlen.
  destruct Hacc as [Hn Hc].
  destruct lats as [|l0 lrest]; [simpl in Hlen; contradiction|].
  destruct ws as [|w0 wr]; [simpl in Hn; rewrite Hn in Hne; contradiction|].
  inversion Hsh as [|? ? [Hw0 Hs0] Hrest]; subst.
  eexists. split; [reflexivity|].
  rewrite images_encoding_slerp_accepted by (split; assumption).
  unfold returned_world. apply cast_body_returns.
  apply (slerp_loop_latents images (l0 :: lrest) _ Henc); auto.
  cbn [combine slerp_fold obind].
  apply (slerp_fold_some (shape l0)).
  - exact (Forall_combine_fst _ _ _ Hrest).
  - apply wf_tscale. exact Hw0.
  - reflexivity.
Qed.

(** ** Sums of finite numbers *)

Lemma finite_list (r : list num) : Forall finite r -> exists xs, r = map Fin xs.
Proof.
  induction 1 as [|x r [a ->] _ [xs ->]].
  - exists []. reflexivity.
  - exists (a :: xs). reflexivity.
Qed.

Lemma fold_nadd_fin (xs : list R) : forall a,
  fold_left nadd (map Fin xs) (Fin a) = Fin (fold_left Rplus xs a).
Proof. induction xs as [|x xs IH]; intro a; [reflexivity | apply IH]. Qed.

Lemma py_sum_fin (xs : list R) : py_sum (map Fin xs) = Fin (rsum xs).
Proof. apply fold_nadd_fin. Qed.

Lemma fold_nadd_finite_inv (l : list num) : forall acc r,
  fold_left nadd l acc = Fin r -> finite acc /\ Forall finite l.
Proof.
  induction l as [|x l IH]; intros acc r H.
  - split; [exists r; exact H | constructor].
  - cbn [fold_left] in H. apply IH in H. destruct H as [[s Hs] Hl].
    destruct acc as [a| | |], x as [b| | |]; try discriminate Hs.
    split; [exists a; reflexivity|]. constructor; [exists b; reflexivity | exact Hl].
Qed.

Lemma py_sum_finite_inv (l : list num) (r : R) :
  py_sum l = Fin r -> Forall finite l.
Proof. intro H. apply (fold_nadd_finite_inv l zero r H). Qed.

Lemma fold_squares_ge (xs : list R) : forall a,
  a <= fold_left Rplus (map (fun x => x * x) xs) a.
Proof.
  induction xs as [|x xs IH]; intro a; simpl; [lra|].
  specialize (IH (a + x * x)). pose proof (Rle_0_sqr x) as Hx.
  unfold Rsqr in Hx. lra.
Qed.

Lemma fold_div (c : R) (xs : list R) : c <> 0 -> forall a,
  fold_left Rplus (map (fun x => x / c * (x / c)) xs) (a / (c * c))
  = fold_left Rplus (map (fun x => x * x) xs) a / (c * c).
Proof.
  intro Hc. induction xs as [|x xs IH]; intro a; simpl; [reflexivity|].
  rewrite <- IH. f_equal. field. exact Hc.
Qed.

Lemma norm2_fin (xs : list R) :
  norm2 (map Fin xs) = Fin (sqrt (rsum (map (fun x => x * x) xs))).
Proof.
  unfold norm2. rewrite map_map.
  change (map (fun x => nsquare (Fin x)) xs) with (map (fun x => Fin (x * x)) xs).
  rewrite <- (map_map (fun x => x * x) Fin), py_sum_fin.
  unfold nsqrt. rewrite Rlt_b_false; [reflexivity|].
  apply fold_squares_ge.
Qed.

Lemma zip_nmul_fin (xs ys : list R) :
  zip_with nmul (map Fin xs) (map Fin ys)
  = map Fin (map2 Rmult xs ys).
Proof.
  revert ys. induction xs as [|x xs IH]; intros [|y ys]; try reflexivity.
  cbn [map zip_with map2]. rewrite IH. reflexivity.
Qed.

Lemma map2_same {A B} (f : A -> A -> B) (l : list A) :
  map2 f l l = map (fun x => f x x) l.
Proof. induction l as [|x l IH]; simpl; [reflexivity | rewrite IH; reflexivity]. Qed.

(** The dot product of the unit-normalized copy of a finite vector of
    nonzero norm with itself is 1. *)
Lemma dot_unit_self (xs : list R) :
  sqrt (rsum (map (fun x => x * x) xs)) <> 0 ->
  py_sum (zip_with nmul (unit_vector (map Fin xs)) (unit_vector (map Fin xs)))
  = one.
Proof.
  intro Hn. unfold unit_vector. rewrite norm2_fin.
  set (n := sqrt (rsum (map (fun x => x * x) xs))) in *.
  rewrite map_map.
  rewrite (map_ext (fun x => ndiv (Fin x) (Fin n)) (fun x => Fin (x / n)))
    by (intro x; apply ndiv_fin; exact Hn).
  rewrite <- (map_map (fun x => x / n) Fin), zip_nmul_fin, py_sum_fin.
  rewrite map2_same, map_map. unfold rsum, one. f_equal.
  replace 0 with (0 / (n * n)) at 1 by (field; exact Hn).
  rewrite fold_div by exact Hn.
  assert (Hs : 0 <= rsum (map (fun x => x * x) xs)) by apply fold_squares_ge.
  assert (Hq : n * n = rsum (map (fun x => x * x) xs))
    by (unfold n; apply sqrt_sqrt; exact Hs).
  rewrite Hq. fold (rsum (map (fun x => x * x) xs)). field.
  intro Z. apply Hn. unfold n. rewrite Z. apply sqrt_0.
Qed.

(** ** The weighted slerp of a tensor with itself *)

Lemma ndiv_by_zero_not_finite (x : R) : ~ finite (nmul (ndiv (Fin x) (Fin 0)) (ndiv (Fin x) (Fin 0))).
Proof.
  intros [r H]. unfold ndiv in H. rewrite Req_b_refl in H.
  destruct (Req_b x 0); [discriminate H|].
  destruct (Rlt_b 0 x); discriminate H.
Qed.

Lemma nacos_not_finite (x : num) : ~ finite x -> nacos x = NaN.
Proof.
  intro H. destruct x as [r| | |]; try reflexivity.
  exfalso. apply H. exists r. reflexivity.
Qed.

Lemma ndiv_nan_r (x : num) : ndiv x NaN = NaN.
Proof. destruct x; reflexivity. Qed.

Lemma nsin_zero_multiple (c : R) : nsin (nmul (Fin c) (Fin 0)) = Fin 0.
Proof. unfold nsin, nmul. rewrite Rmult_0_r, sin_0. reflexivity. Qed.

Lemma nacos_one : nacos one = Fin 0.
Proof.
  unfold nacos, one. rewrite !Rle_b_true by lra. simpl. rewrite acos_1. reflexivity.
Qed.

(** For a nonempty finite vector [r], both coefficients of the slerp of
    [r] with itself are [NaN]: the angle is 0 and the coefficients are
    [0/0], or the norm is 0 and the angle itself is [NaN]. *)
Lemma slerp_coefficient_colinear (c x : R) (xs : list R) :
  let r := map Fin (x :: xs) in
  ndiv (nsin (nmul (Fin c) (row_omega r r))) (nsin (row_omega r r)) = NaN.
Proof.
  intro r. destruct (Req_dec_T (sqrt (rsum (map (fun y => y * y) (x :: xs)))) 0)
    as [Z|NZ].
  - assert (E : row_omega r r = NaN).
    { unfold row_omega. apply nacos_not_finite. intros [d Hd].
      apply py_sum_finite_inv in Hd. unfold r, unit_vector in Hd.
      rewrite norm2_fin, Z in Hd. cbn [map zip_with] in Hd.
      inversion Hd as [|? ? Hx _]. exact (ndiv_by_zero_not_finite x Hx). }
    rewrite E. apply ndiv_nan_r.
  - assert (E : row_omega r r = Fin 0).
    { unfold row_omega, r. rewrite (dot_unit_self (x :: xs) NZ). apply nacos_one. }
    rewrite E, nsin_zero_multiple. unfold nsin. rewrite sin_0. apply ndiv_zero_zero.
Qed.

Lemma slerp_row_colinear (t : R) (r : list num) :
  Forall finite r -> slerp_row (Fin t) r r = repeat NaN (length r).
Proof.
  intro H. destruct (finite_list r H) as [xs ->]. destruct xs as [|x xs].
  - reflexivity.
  - unfold slerp_row.
    change (nsub one (Fin t)) with (Fin (1 + - t)).
    rewrite !(slerp_coefficient_colinear _ x xs).
    generalize (map Fin (x :: xs)). intro l.
    induction l as [|y l IH]; [reflexivity|].
    cbn [map zip_with length repeat]. rewrite IH. reflexivity.
Qed.

Lemma concat_map_repeat (c : num) (rs : list (list num)) :
  concat (map (fun r => repeat c (length r)) rs) = repeat c (length (concat rs)).
Proof.
  induction rs as [|r rs IH]; [reflexivity|].
  cbn [map concat]. rewrite IH, length_app, repeat_app. reflexivity.
Qed.

Lemma map_ext_Forall {A B} (P : A -> Prop) (f g : A -> B) (l : list A) :
  (forall a, P a -> f a = g a) -> Forall P l -> map f l = map g l.
Proof.
  intros H F. induction F as [|a l Ha _ IH]; simpl; [reflexivity|].
  rewrite (H a Ha), IH. reflexivity.
Qed.

(** The weighted slerp of a finite tensor with itself: every element of
    the result is [NaN], for every real weight. *)
Lemma weighted_slerp_colinear (t : R) (v : Tensor) :
  wf v -> Forall finite (data v) ->
  weighted_slerp (Fin t) v v
  = Ok {| shape := shape v; data := repeat NaN (length (data v)) |}.
Proof.
  intros W F. rewrite weighted_slerp_rows by auto.
  unfold weighted_slerp_spec. f_equal. f_equal.
  rewrite map2_same.
  rewrite (map_ext_Forall (Forall finite) _ (fun r => repeat NaN (length r))).
  - rewrite concat_map_repeat, rows_concat by exact W. reflexivity.
  - intros r Hr. apply slerp_row_colinear. exact Hr.
  - apply Forall_concat. rewrite rows_concat by exact W. exact F.
Qed.

(** C1 at a failing input: the weighted slerp of the latent [[1.0, 0.0]]
    with itself, at weight 0.5, is [[NaN, NaN]] and not the latent: the
    angle is [acos(1) = 0], both coefficients are [sin(0)/sin(0) = 0/0], and
    no linear fallback takes over. *)
Theorem slerp_of_identical_latents_is_nan :
  weighted_slerp (Fin (1 / 2)) east east
  = Ok {| shape := [1; 2]%nat; data := [NaN; NaN] |} /\
  weighted_slerp (Fin (1 / 2)) east east <> Ok east.
Proof.
  assert (E : weighted_slerp (Fin (1 / 2)) east east
              = Ok {| shape := [1; 2]%nat; data := [NaN; NaN] |}).
  { rewrite weighted_slerp_colinear.
    - reflexivity.
    - reflexivity.
    - repeat constructor; eexists; reflexivity. }
  split; [exact E|]. rewrite E. discriminate.
Qed.

(** ** The endpoints of the weighted slerp *)

Lemma nmul_finite_inv (a b : num) : finite (nmul a b) -> finite a /\ finite b.
Proof.
  intros [r H]. unfold nmul, inf_times in H.
  destruct a as [x| | |], b as [y| | |]; try discriminate H;
    try (split; eexists; reflexivity);
    exfalso;
    repeat match type of H with
           | context [if ?c then _ else _] => destruct c
           end; discriminate H.
Qed.

Lemma ndiv_finite_inv (a b : num) : finite (ndiv a b) -> finite a.
Proof.
  intros [r H]. unfold ndiv in H.
  destruct a as [x| | |]; [eexists; reflexivity | | | ];
    exfalso; destruct b as [y| | |]; try discriminate H;
    repeat match type of H with
           | context [if ?c then _ else _] => destruct c
           end; discriminate H.
Qed.

Lemma zip_nmul_finite_inv (a : list num) : forall b,
  length a = length b -> Forall finite (zip_with nmul a b) ->
  Forall finite a /\ Forall finite b.
Proof.
  induction a as [|x a IH]; intros [|y b] L F; try discriminate L.
  - split; constructor.
  - cbn [zip_with] in F. inversion F as [|? ? Hxy Frest]; subst.
    apply nmul_finite_inv in Hxy. destruct Hxy as [Hx Hy].
    destruct (IH b) as [Fa Fb]; [simpl in L; lia | exact Frest |].
    split; constructor; assumption.
Qed.

Lemma unit_vector_finite_inv (r : list num) :
  Forall finite (unit_vector r) -> Forall finite r.
Proof.
  unfold unit_vector. generalize (norm2 r). intro n.
  induction r as [|x r IH]; intro F; [constructor|].
  cbn [map] in F. inversion F as [|? ? Hx Fr]; subst.
  constructor; [exact (ndiv_finite_inv _ _ Hx) | apply IH; exact Fr].
Qed.

(** A finite angle between two vectors of one length: both are finite. *)
Lemma row_omega_finite_inv (r0 r1 : list num) (o : R) :
  length r0 = length r1 -> row_omega r0 r1 = Fin o ->
  Forall finite r0 /\ Forall finite r1.
Proof.
  intros L H. unfold row_omega, nacos in H.
  destruct (py_sum _) as [d| | |] eqn:E; try discriminate H.
  apply py_sum_finite_inv in E.
  apply zip_nmul_finite_inv in E; [|rewrite !length_unit_vector; exact L].
  destruct E as [F0 F1].
  split; apply unit_vector_finite_inv; assumption.
Qed.

Lemma blend_one_zero (r0 : list num) : forall r1,
  length r0 = length r1 -> Forall finite r1 ->
  zip_with nadd (map (nmul one) r0) (map (nmul zero) r1) = r0.
Proof.
  induction r0 as [|x r0 IH]; intros [|y r1] L F; try discriminate L; [reflexivity|].
  inversion F as [|? ? [b ->] Fr]; subst. cbn [map zip_with].
  rewrite nmul_one_l, nmul_zero_fin, nadd_zero_r, IH; auto.
Qed.

Lemma blend_zero_one (r0 : list num) : forall r1,
  length r0 = length r1 -> Forall finite r0 ->
  zip_with nadd (map (nmul zero) r0) (map (nmul one) r1) = r1.
Proof.
  induction r0 as [|x r0 IH]; intros [|y r1] L F; try discriminate L; [reflexivity|].
  inversion F as [|? ? [a ->] Fr]; subst. cbn [map zip_with].
  rewrite nmul_one_l, nmul_zero_fin, nadd_zero_l, IH; auto.
Qed.

Lemma slerp_row_endpoints (r0 r1 : list num) :
  length r0 = length r1 ->
  (exists s, nsin (row_omega r0 r1) = Fin s /\ s <> 0) ->
  slerp_row (Fin 0) r0 r1 = r0 /\ slerp_row (Fin 1) r0 r1 = r1.
Proof.
  intros L [s [Hs Hnz]].
  destruct (row_omega r0 r1) as [o| | |] eqn:E; try discriminate Hs.
  destruct (row_omega_finite_inv r0 r1 o L E) as [F0 F1].
  unfold nsin in Hs. injection Hs as Hs.
  unfold slerp_row. rewrite E.
  assert (S1 : forall c, c = 1 -> nsin (nmul (Fin c) (Fin o)) = Fin s).
  { intros c ->. unfold nsin, nmul. rewrite Rmult_1_l, Hs. reflexivity. }
  assert (S0 : forall c, c = 0 -> nsin (nmul (Fin c) (Fin o)) = Fin 0).
  { intros c ->. unfold nsin, nmul. rewrite Rmult_0_l, sin_0. reflexivity. }
  assert (So : nsin (Fin o) = Fin s) by (unfold nsin; rewrite Hs; reflexivity).
  rewrite So. split.
  - change (nsub one (Fin 0)) with (Fin (1 + - 0)).
    rewrite (S1 (1 + - 0)) by lra. rewrite (S0 0) by reflexivity.
    rewrite ndiv_self, ndiv_zero_fin by exact Hnz.
    apply blend_one_zero; assumption.
  - change (nsub one (Fin 1)) with (Fin (1 + - (1))).
    rewrite (S0 (1 + - (1))) by lra. rewrite (S1 1) by reflexivity.
    rewrite ndiv_self, ndiv_zero_fin by exact Hnz.
    apply blend_zero_one; assumption.
Qed.

Lemma map2_endpoints (t : num) (D : nat) (rs0 rs1 : list (list num)) :
  Forall2 (fun r0 r1 => exists s, nsin (row_omega r0 r1) = Fin s /\ s <> 0) rs0 rs1 ->
  Forall (fun r => length r = D) rs0 ->
  Forall (fun r => length r = D) rs1 ->
  map2 (slerp_row (Fin 0)) rs0 rs1 = rs0 /\ map2 (slerp_row (Fin 1)) rs0 rs1 = rs1.
Proof.
  induction 1 as [|r0 r1 rs0 rs1 H _ IH]; intros L0 L1.
  - split; reflexivity.
  - inversion L0 as [|? ? Hl0 L0']; inversion L1 as [|? ? Hl1 L1']; subst.
    destruct (IH L0' L1') as [E0 E1].
    destruct (slerp_row_endpoints r0 r1) as [A B]; [congruence | exact H |].
    cbn [map2]. rewrite A, B, E0, E1. split; reflexivity.
Qed.

(** C10: for every two well-formed latents of one shape that are nowhere
    colinear along the last axis (the sine of the angle of every pair of
    vectors is a nonzero real), [weighted_slerp(0.0, v0, v1)] returns [v0]
    and [weighted_slerp(1.0, v0, v1)] returns [v1]. *)
Theorem weighted_slerp_endpoints (v0 v1 : Tensor) :
  wf v0 -> wf v1 -> shape v1 = shape v0 -> non_colinear v0 v1 ->
  weighted_slerp (Fin 0) v0 v1 = Ok v0 /\ weighted_slerp (Fin 1) v0 v1 = Ok v1.
Proof.
  intros W0 W1 S NC. rewrite !weighted_slerp_rows by assumption.
  unfold weighted_slerp_spec.
  pose proof (rows_lengths v0 W0) as L0. pose proof (rows_lengths v1 W1) as L1.
  rewrite S in L1.
  destruct (map2_endpoints (Fin 0) _ _ _ NC L0 L1) as [E0 E1].
  rewrite E0, E1, !rows_concat by assumption. rewrite <- S at 2.
  destruct v0, v1. split; reflexivity.
Qed.

Lemma row_omega_east_north : row_omega [Fin 1; Fin 0] [Fin 0; Fin 1] = Fin (PI / 2).
Proof.
  unfold row_omega, unit_vector.
  change [Fin 1; Fin 0] with (map Fin [1; 0]).
  change [Fin 0; Fin 1] with (map Fin [0; 1]).
  rewrite (norm2_fin [1; 0]), (norm2_fin [0; 1]). unfold rsum. cbn [map fold_left].
  replace (0 + 1 * 1 + 0 * 0) with 1 by ring.
  replace (0 + 0 * 0 + 1 * 1) with 1 by ring.
  rewrite sqrt_1, !ndiv_fin by lra. cbn [zip_with].
  change (py_sum [nmul (Fin (1 / 1)) (Fin (0 / 1)); nmul (Fin (0 / 1)) (Fin (1 / 1))])
    with (Fin (0 + 1 / 1 * (0 / 1) + 0 / 1 * (1 / 1))).
  replace (0 + 1 / 1 * (0 / 1) + 0 / 1 * (1 / 1)) with 0 by field.
  unfold nacos. rewrite !Rle_b_true by lra. simpl. rewrite acos_0. reflexivity.
Qed.

Lemma non_colinear_east_north : non_colinear east north.
Proof.
  unfold non_colinear. change (rows east) with [[Fin 1; Fin 0]].
  change (rows north) with [[Fin 0; Fin 1]].
  constructor; [|constructor].
  exists 1. rewrite row_omega_east_north. unfold nsin. rewrite sin_PI2.
  split; [reflexivity | lra].
Qed.

(** C10 on the orthogonal latents [[1.0, 0.0]] and [[0.0, 1.0]]. *)
Lemma weighted_slerp_endpoints_example :
  weighted_slerp (Fin 0) east north = Ok east /\
  weighted_slerp (Fin 1) east north = Ok north.
Proof.
  apply (weighted_slerp_endpoints east north).
  - reflexivity.
  - reflexivity.
  - reflexivity.
  - exact non_colinear_east_north.
Defined.

(** ** The slerp blend at a right angle *)

Lemma norm2_pair (a b : R) : norm2 [Fin a; Fin b] = Fin (sqrt (a * a + b * b)).
Proof.
  change [Fin a; Fin b] with (map Fin [a; b]). rewrite norm2_fin.
  unfold rsum. cbn [map fold_left]. f_equal. f_equal. ring.
Qed.

(** Two orthogonal vectors of the plane, none of them zero, are at the
    angle [pi/2]. *)
Lemma row_omega_orthogonal (a b c d : R) :
  a * c + b * d = 0 -> 0 < a * a + b * b -> 0 < c * c + d * d ->
  row_omega [Fin a; Fin b] [Fin c; Fin d] = Fin (PI / 2).
Proof.
  intros Hdot H0 H1. unfold row_omega, unit_vector. rewrite !norm2_pair.
  pose proof (sqrt_lt_R0 _ H0) as P0. pose proof (sqrt_lt_R0 _ H1) as P1.
  set (n0 := sqrt (a * a + b * b)) in *. set (n1 := sqrt (c * c + d * d)) in *.
  cbn [map]. rewrite !ndiv_fin by lra. cbn [zip_with].
  change (py_sum [nmul (Fin (a / n0)) (Fin (c / n1)); nmul (Fin (b / n0)) (Fin (d / n1))])
    with (Fin (0 + a / n0 * (c / n1) + b / n0 * (d / n1))).
  replace (0 + a / n0 * (c / n1) + b / n0 * (d / n1)) with ((a * c + b * d) / (n0 * n1))
    by (field; lra).
  rewrite Hdot. replace (0 / (n0 * n1)) with 0 by (field; lra).
  unfold nacos. rewrite !Rle_b_true by lra. simpl. rewrite acos_0. reflexivity.
Qed.

(** The slerp of two orthogonal vectors of the plane: the sine of their
    angle is 1 and the coefficients are [sin((1-t) pi/2)] and
    [sin(t pi/2)]. *)
Lemma slerp_row_orthogonal (t a b c d : R) :
  a * c + b * d = 0 -> 0 < a * a + b * b -> 0 < c * c + d * d ->
  nsin (row_omega [Fin a; Fin b] [Fin c; Fin d]) = Fin 1 /\
  slerp_row (Fin t) [Fin a; Fin b] [Fin c; Fin d]
  = [Fin (sin ((1 - t) * (PI / 2)) * a + sin (t * (PI / 2)) * c);
     Fin (sin ((1 - t) * (PI / 2)) * b + sin (t * (PI / 2)) * d)].
Proof.
  intros Hdot H0 H1. unfold slerp_row.
  rewrite (row_omega_orthogonal a b c d Hdot H0 H1).
  assert (S : nsin (Fin (PI / 2)) = Fin 1) by (unfold nsin; rewrite sin_PI2; reflexivity).
  rewrite S. split; [reflexivity|].
  change (nsin (nmul (nsub one (Fin t)) (Fin (PI / 2))))
    with (Fin (sin ((1 + - t) * (PI / 2)))).
  change (nsin (nmul (Fin t) (Fin (PI / 2)))) with (Fin (sin (t * (PI / 2)))).
  rewrite !ndiv_fin by lra. cbn [map zip_with].
  replace (1 + - t) with (1 - t) by ring.
  unfold nadd, nmul. f_equal; [|f_equal]; f_equal; field.
Qed.

(** Halfway between the latents [[1.0, 0.0]] and [[0.0, 1.0]]: both
    coefficients are [sin(pi/4)]. *)
Lemma weighted_slerp_spec_east_north :
  weighted_slerp_spec (Fin (1 / 2)) east north
  = {| shape := [1; 2]%nat; data := [Fin (sin (PI / 4)); Fin (sin (PI / 4))] |}.
Proof.
  unfold weighted_slerp_spec.
  change (rows east) with [[Fin 1; Fin 0]]. change (rows north) with [[Fin 0; Fin 1]].
  cbn [map2 concat shape east].
  destruct (slerp_row_orthogonal (1 / 2) 1 0 0 1) as [_ E]; [lra | lra | lra |].
  rewrite E. cbn [app].
  replace ((1 - 1 / 2) * (PI / 2)) with (PI / 4) by field.
  replace (1 / 2 * (PI / 2)) with (PI / 4) by field.
  f_equal. f_equal; [|f_equal]; f_equal; ring.
Qed.

Lemma latent_of_white_black (d : dtype) :
  latent_of (identity_vae d) white_black = Ok falling_latent.
Proof.
  unfold latent_of, prepare, white_black, permute_201, tmap. cbn [shape data map].
  rewrite !ndiv_fin by lra.
  unfold falling_latent, unsqueeze0, tscale, tmap, identity_vae.
  cbn [obind shape data map flat_map seq Nat.mul Nat.add nth app
       vae_encode vae_dtype vae_scaling_factor].
  unfold nsub, nneg, nadd, nmul, one. f_equal. f_equal.
  f_equal; [|f_equal]; f_equal; field.
Qed.

Lemma latent_of_white_white (d : dtype) :
  latent_of (identity_vae d) white_white = Ok level_latent.
Proof.
  unfold latent_of, prepare, white_white, permute_201, tmap. cbn [shape data map].
  rewrite !ndiv_fin by lra.
  unfold level_latent, unsqueeze0, tscale, tmap, identity_vae.
  cbn [obind shape data map flat_map seq Nat.mul Nat.add nth app
       vae_encode vae_dtype vae_scaling_factor].
  unfold nsub, nneg, nadd, nmul, one. f_equal. f_equal.
  f_equal; [|f_equal]; f_equal; field.
Qed.

(** The slerp blend of the latents (1, -1) and (1, 1) with weights
    [0.5, 0.5]: the first latent is halved, the angle to the second is
    [pi/2], and both coefficients are [sin(pi/4)]. *)
Lemma slerp_blend_spec_right_angle :
  nsin (row_omega (data (tscale falling_latent (Fin (1 / 2)))) (data level_latent))
  = Fin 1 /\
  slerp_blend_spec [falling_latent; level_latent] weights_55
  = Some {| shape := [1; 1; 1; 2]%nat;
            data := [Fin (sin (PI / 4) * (3 / 2)); Fin (sin (PI / 4) * (1 / 2))] |}.
Proof.
  destruct (slerp_row_orthogonal (1 / 2) (1 * (1 / 2)) (- (1) * (1 / 2)) 1 1)
    as [Hs E]; [lra | lra | lra |].
  split; [exact Hs|].
  unfold slerp_blend_spec, weights_55. cbn [combine fold_left fst snd].
  unfold weighted_slerp_spec.
  change (rows (tscale falling_latent (Fin (1 / 2))))
    with [[Fin (1 * (1 / 2)); Fin (- (1) * (1 / 2))]].
  change (rows level_latent) with [[Fin 1; Fin 1]].
  cbn [map2 concat]. rewrite E. cbn [app].
  replace ((1 - 1 / 2) * (PI / 2)) with (PI / 4) by field.
  replace (1 / 2 * (PI / 2)) with (PI / 4) by field.
  f_equal. f_equal. f_equal; [|f_equal]; f_equal; field.
Qed.

(** C6 on two images of 1 x 2 pixels whose latents (1, -1) and (1, 1) are
    orthogonal, with weights [0.5, 0.5], and on the orthogonal latents
    [[1.0, 0.0]] and [[0.0, 1.0]] at weight 0.5: every angle is [pi/2], its
    sine is 1, and the results are the finite tensors
    [sin(pi/4) * (1.5, 0.5)] and [sin(pi/4) * (1, 1)]. *)
Lemma slerp_blend_is_spec_fold_example :
  (weighted_slerp (Fin (1 / 2)) east north
   = Ok (weighted_slerp_spec (Fin (1 / 2)) east north) /\
   exists blended,
     slerp_blend_spec [falling_latent; level_latent] weights_55 = Some blended /\
     images_encoding_slerp [white_black; white_white] weights_55 (start_world float16)
     = (Ok (Some blended),
        returned_world (start_world float16) [white_black; white_white])) /\
  weighted_slerp_spec (Fin (1 / 2)) east north
  = {| shape := [1; 2]%nat; data := [Fin (sin (PI / 4)); Fin (sin (PI / 4))] |} /\
  nsin (row_omega (data east) (data north)) = Fin 1 /\
  nsin (row_omega (data (tscale falling_latent (Fin (1 / 2)))) (data level_latent))
  = Fin 1 /\
  slerp_blend_spec [falling_latent; level_latent] weights_55
  = Some {| shape := [1; 1; 1; 2]%nat;
            data := [Fin (sin (PI / 4) * (3 / 2)); Fin (sin (PI / 4) * (1 / 2))] |}.
Proof.
  split; [|split; [|split]].
  - apply (slerp_blend_is_spec_fold [white_black; white_white]
             [falling_latent; level_latent] weights_55 [1; 1; 1; 2]%nat
             (start_world float16)).
    + exact accepted_weights_55.
    + constructor; [apply (latent_of_white_black float32)|].
      constructor; [apply (latent_of_white_white float32) | constructor].
    + repeat constructor.
    + reflexivity.
    + reflexivity.
    + reflexivity.
  - exact weighted_slerp_spec_east_north.
  - exact (proj1 (slerp_row_orthogonal 0 1 0 0 1 ltac:(lra) ltac:(lra) ltac:(lra))).
  - exact slerp_blend_spec_right_angle.
Defined.

(** * Further properties *)

(** ** [image_encoding] *)

Lemma nmul_one_r (x : num) : nmul x one = x.
Proof.
  destruct x; unfold nmul, one; try reflexivity.
  - f_equal. lra.
  - unfold inf_times. rewrite Req_b_false by lra. rewrite Rlt_b_true by lra. reflexivity.
  - unfold inf_times. rewrite Req_b_false by lra. rewrite Rlt_b_true by lra. reflexivity.
Qed.

Lemma tscale_one (t : Tensor) : tscale t one = t.
Proof.
  destruct t as [s d]. unfold tscale, tmap. cbn [shape data]. f_equal.
  induction d as [|x d IH]; [reflexivity|].
  cbn [map]. rewrite nmul_one_r, IH. reflexivity.
Qed.

(** [image_encoding] in full: the latent is the one of the VAE in
    [float32]; the VAE is left in [float16] on return and in [float32] when
    the encoding raises. *)
Lemma image_encoding_run (image : Tensor) (w : world) :
  image_encoding image w
  = match latent_of (set_vae_dtype float32 (model w)) image with
    | Ok l => (Ok l, returned_world w [image])
    | Raise e => (Raise e, raised_world w (encode_events image))
    end.
Proof.
  unfold image_encoding.
  destruct (latent_of (set_vae_dtype float32 (model w)) image) as [l|e] eqn:E.
  - unfold returned_world. cbn [flat_map]. rewrite app_nil_r.
    apply cast_body_returns. rewrite encode_latent_run. cbn [cast32 model].
    rewrite E. reflexivity.
  - unfold raised_world. apply cast_body_raises. rewrite encode_latent_run.
    cbn [cast32 model]. rewrite E. reflexivity.
Qed.

(** ** One image *)

Lemma linear_loop_one (image : Tensor) (wt : num) (w : world) :
  linear_loop [(image, wt)] None w
  = match latent_of (model w) image with
    | Ok l => (Ok (Some (tscale l wt)), after w (encode_events image))
    | Raise e => (Raise e, after w (encode_events image))
    end.
Proof.
  cbn [linear_loop]. unfold bind at 1. rewrite encode_latent_run.
  destruct (latent_of (model w) image); reflexivity.
Qed.

Lemma slerp_loop_one (image : Tensor) (wt : num) (w : world) :
  slerp_loop [(image, wt)] None w = linear_loop [(image, wt)] None w.
Proof. reflexivity. Qed.

Lemma images_encoding_one (image : Tensor) (wt : num) (w : world) :
  accepted 1 [wt] ->
  images_encoding [image] [wt] w
  = match latent_of (set_vae_dtype float32 (model w)) image with
    | Ok l => (Ok (Some (tscale l wt)), returned_world w [image])
    | Raise e => (Raise e, raised_world w (encode_events image))
    end.
Proof.
  intro H. rewrite images_encoding_accepted by exact H. cbn [combine].
  destruct (latent_of (set_vae_dtype float32 (model w)) image) as [l|e] eqn:E.
  - unfold returned_world. cbn [flat_map]. rewrite app_nil_r.
    apply cast_body_returns. rewrite linear_loop_one. cbn [cast32 model].
    rewrite E. reflexivity.
  - unfold raised_world. apply cast_body_raises. rewrite linear_loop_one.
    cbn [cast32 model]. rewrite E. reflexivity.
Qed.

(** X2: the linear blend of one image with weight 1.0 is [image_encoding]
    of that image: the same latent (as the blend's optional tensor), the
    same exception when the encoding raises, and the same world. *)
Theorem images_encoding_of_one_image (image : Tensor) (w : world) :
  images_encoding [image] [one] w
  = (some_outcome (fst (image_encoding image w)), snd (image_encoding image w)).
Proof.
  rewrite images_encoding_one by (apply accepted_one; reflexivity).
  rewrite image_encoding_run.
  destruct (latent_of (set_vae_dtype float32 (model w)) image) as [l|e].
  - rewrite tscale_one. reflexivity.
  - reflexivity.
Qed.

(** X3: for one image whose latent is the well-formed tensor [l] and one
    accepted weight [wt], the linear, slerp and barycentric blends all
    return [l * wt]: the slerp blend interpolates nothing, and the zero
    accumulator of the barycentric blend adds nothing. *)
Theorem one_image_blends_scale_the_latent
  (image l : Tensor) (wt : num) (w : world) :
  accepted 1 [wt] ->
  latent_of (set_vae_dtype float32 (model w)) image = Ok l ->
  wf l ->
  images_encoding [image] [wt] w
  = (Ok (Some (tscale l wt)), returned_world w [image]) /\
  images_encoding_slerp [image] [wt] w
  = (Ok (Some (tscale l wt)), returned_world w [image]) /\
  images_encoding_barycentric [image] [wt] w
  = (Ok (tscale l wt), returned_world w [image]).
Proof.
  intros Hacc Hl Hwf.
  assert (E : images_encoding [image] [wt] w
              = (Ok (Some (tscale l wt)), returned_world w [image])).
  { rewrite images_encoding_one by exact Hacc. rewrite Hl. reflexivity. }
  split; [exact E|]. split.
  - rewrite <- E. rewrite images_encoding_slerp_accepted, images_encoding_accepted
      by exact Hacc.
    reflexivity.
  - rewrite images_encoding_barycentric_accepted by exact Hacc.
    unfold returned_world. apply cast_body_returns.
    unfold bind. cbn [encode_all]. unfold bind. rewrite encode_latent_run.
    cbn [cast32 model]. rewrite Hl. unfold ret, lift. cbn [app].
    unfold barycentric_interpolation.
    rewrite check_weights_accept by exact Hacc.
    cbn [obind combine barycentric_loop]. rewrite iadd_zeros by exact Hwf.
    cbn [obind flat_map]. rewrite app_nil_r. reflexivity.
Qed.

(** X3 on a one-pixel image with weight 1. *)
Lemma one_image_blends_scale_the_latent_example :
  images_encoding [pixel 255] [one] (start_world float16)
  = (Ok (Some (tscale (pixel_latent 255) one)),
     returned_world (start_world float16) [pixel 255]) /\
  images_encoding_slerp [pixel 255] [one] (start_world float16)
  = (Ok (Some (tscale (pixel_latent 255) one)),
     returned_world (start_world float16) [pixel 255]) /\
  images_encoding_barycentric [pixel 255] [one] (start_world float16)
  = (Ok (tscale (pixel_latent 255) one),
     returned_world (start_world float16) [pixel 255]).
Proof.
  apply (one_image_blends_scale_the_latent (pixel 255) (pixel_latent 255) one
           (start_world float16)).
  - apply accepted_one. reflexivity.
  - apply (latent_of_pixel float32).
  - reflexivity.
Defined.

(** ** Which assertion fails *)

(** X4: when the number of images (or latents) differs from the number of
    weights, every blend fails with the message of the length assertion,
    whatever the sum of the weights is: the lengths are checked first. *)
Theorem length_mismatch_is_reported_first
  (images : list Tensor) (ws : list num) (epsilon : num) (w : world) :
  length images <> length ws ->
  images_encoding images ws w
  = (Raise (AssertionError "The number of images and blending_weights must match."),
     w) /\
  images_encoding_slerp images ws w
  = (Raise (AssertionError "The number of images and blending_weights must match."),
     w) /\
  images_encoding_barycentric images ws w
  = (Raise (AssertionError "The number of images and blending_weights must match."),
     w) /\
  images_encoding_rbf images ws epsilon w
  = (Raise (AssertionError "The number of images and blending_weights must match."),
     w) /\
  barycentric_interpolation images ws
  = Raise (AssertionError "Number of latents and weights must match.") /\
  rbf_interpolation images ws epsilon
  = Raise (AssertionError "Number of latents and weights must match.").
Proof.
  intro H.
  assert (C : forall m1 m2,
             check_weights (length images) ws m1 m2 = Raise (AssertionError m1)).
  { intros m1 m2. unfold check_weights, assert_.
    destruct (Nat.eqb_spec (length images) (length ws)); [contradiction | reflexivity]. }
  repeat split.
  - unfold images_encoding, bind, check_blending_weights, lift. rewrite C. reflexivity.
  - unfold images_encoding_slerp, bind, check_blending_weights, lift.
    rewrite C. reflexivity.
  - unfold images_encoding_barycentric, bind, check_blending_weights, lift.
    rewrite C. reflexivity.
  - unfold images_encoding_rbf, bind, check_blending_weights, lift.
    rewrite C. reflexivity.
  - unfold barycentric_interpolation. rewrite C. reflexivity.
  - unfold rbf_interpolation. rewrite C. reflexivity.
Qed.

(** X4 on one image and the two weights [0.4, 0.4], whose sum is off as
    well. *)
Lemma length_mismatch_is_reported_first_example :
  images_encoding [pixel 255] weights_04 (start_world float16)
  = (Raise (AssertionError "The number of images and blending_weights must match."),
     start_world float16).
Proof.
  apply (length_mismatch_is_reported_first [pixel 255] weights_04 one
           (start_world float16)).
  simpl. discriminate.
Defined.

(** ** Shapes *)

(** X5: the barycentric blend of well-formed latents of one shape, with
    accepted weights, returns a well-formed tensor of that shape. *)
Theorem barycentric_keeps_the_shape
  (latents : list Tensor) (ws : list num) (s : list nat) :
  accepted (length latents) ws ->
  latents_of_shape s latents ->
  exists t, barycentric_interpolation latents ws = Ok t /\ shape t = s /\ wf t.
Proof.
  intros Hacc Hsh. pose proof (accepted_nonempty _ _ Hacc) as Hne.
  destruct latents as [|l0 rest]; [contradiction|].
  inversion Hsh as [|? ? [Hw0 Hs0] Hrest]; subst.
  destruct (barycentric_loop_ok (shape l0) (combine (l0 :: rest) ws)
              (Forall_combine_fst _ _ _ Hsh) (zeros_like l0)
              (wf_zeros_like l0) eq_refl) as [t [Ht [Wt St]]].
  exists t. split; [|split; assumption].
  unfold barycentric_interpolation. rewrite check_weights_accept by exact Hacc.
  exact Ht.
Qed.

(** X5 on two latents of shape [(2, 2)]. *)
Lemma barycentric_keeps_the_shape_example :
  exists t,
    barycentric_interpolation [square_latent; tscale square_latent (Fin 2)] weights_55
    = Ok t /\ shape t = [2; 2]%nat /\ wf t.
Proof.
  apply (barycentric_keeps_the_shape
           [square_latent; tscale square_latent (Fin 2)] weights_55 [2; 2]%nat).
  - exact accepted_weights_55.
  - repeat constructor.
Defined.

(** X6: the weighted slerp of two well-formed tensors of one shape never
    raises and returns a well-formed tensor of that shape, for every weight
    (even when its elements are [NaN]). *)
Theorem weighted_slerp_keeps_the_shape (weight : num) (v0 v1 : Tensor) :
  wf v0 -> wf v1 -> shape v1 = shape v0 ->
  exists t, weighted_slerp weight v0 v1 = Ok t /\ shape t = shape v0 /\ wf t.
Proof.
  intros W0 W1 S. exists (weighted_slerp_spec weight v0 v1).
  split; [apply weighted_slerp_rows; assumption|].
  split; [reflexivity | apply wf_weighted_slerp_spec; assumption].
Qed.

(** X6 on a latent of shape [(2, 2)] and its double. *)
Lemma weighted_slerp_keeps_the_shape_example :
  exists t,
    weighted_slerp (Fin (1 / 2)) square_latent (tscale square_latent (Fin 2)) = Ok t /\
    shape t = shape square_latent /\ wf t.
Proof.
  apply (weighted_slerp_keeps_the_shape (Fin (1 / 2)) square_latent
           (tscale square_latent (Fin 2))); reflexivity.
Defined.

(** X7: the weighted slerp of two well-formed tensors whose shapes do not
    broadcast raises the [RuntimeError] of the product of the two
    normalized tensors. *)
Theorem weighted_slerp_rejects_unrelated_shapes (weight : num) (v0 v1 : Tensor) :
  wf v0 -> wf v1 -> broadcast_shapes (shape v0) (shape v1) = None ->
  exists msg, weighted_slerp weight v0 v1 = Raise (RuntimeError msg).
Proof.
  intros W0 W1 B. unfold weighted_slerp.
  rewrite (normalize_rows v0 W0), (normalize_rows v1 W1). cbn [obind].
  unfold binop. cbn [shape]. rewrite B. eexists. reflexivity.
Qed.

(** X7 on latents of shapes [(1, 2)] and [(1, 3)]. *)
Lemma weighted_slerp_rejects_unrelated_shapes_example :
  exists msg, weighted_slerp (Fin (1 / 2)) east triple = Raise (RuntimeError msg).
Proof.
  apply (weighted_slerp_rejects_unrelated_shapes (Fin (1 / 2)) east triple);
    reflexivity.
Defined.

(** X8: when one of the latents has not the shape of the first, the RBF
    blend with accepted weights raises the [RuntimeError] of [torch.stack]
    and computes no distance. *)
Theorem rbf_rejects_unequal_shapes
  (l0 : Tensor) (rest : list Tensor) (ws : list num) (epsilon : num) :
  accepted (length (l0 :: rest)) ws ->
  Exists (fun l => shape l <> shape l0) rest ->
  exists msg, rbf_interpolation (l0 :: rest) ws epsilon = Raise (RuntimeError msg).
Proof.
  intros Hacc Hex. unfold rbf_interpolation.
  rewrite check_weights_accept by exact Hacc. cbn [obind]. unfold stack.
  replace (forallb (fun u => shape_eqb (shape u) (shape l0)) rest) with false;
    [eexists; reflexivity|].
  symmetry. apply not_true_is_false. intro F.
  rewrite forallb_forall in F. apply Exists_exists in Hex.
  destruct Hex as [l [Hin Hne]]. specialize (F l Hin).
  unfold shape_eqb in F. destruct (list_eq_dec Nat.eq_dec (shape l) (shape l0));
    [contradiction | discriminate].
Qed.

(** X8 on latents of shapes [(1, 2)] and [(1, 3)]. *)
Lemma rbf_rejects_unequal_shapes_example :
  exists msg, rbf_interpolation [east; triple] weights_55 one = Raise (RuntimeError msg).
Proof.
  apply (rbf_rejects_unequal_shapes east [triple] weights_55 one).
  - exact accepted_weights_55.
  - constructor. simpl. discriminate.
Defined.

Lemma iadd_shape (a b t : Tensor) : iadd a b = Ok t -> shape t = shape a.
Proof.
  unfold iadd. destruct (broadcast_shapes (shape a) (shape b)) as [s|]; [|discriminate].
  destruct (list_eq_dec Nat.eq_dec s (shape a)) as [E|_]; [|discriminate].
  intro H. injection H as <-. exact E.
Qed.

Lemma barycentric_loop_shape (items : list (Tensor * num)) :
  forall acc t, barycentric_loop items acc = Ok t -> shape t = shape acc.
Proof.
  induction items as [|[l wt] rest IH]; intros acc t H.
  - injection H as <-. reflexivity.
  - cbn [barycentric_loop] in H.
    destruct (iadd acc (tscale l wt)) as [b|e] eqn:E; [|discriminate H].
    cbn [obind] in H. rewrite (IH b t H). exact (iadd_shape _ _ _ E).
Qed.

(** X9: whatever the shapes of the latents, a barycentric blend that
    returns has the shape of the first latent: the accumulator is
    [zeros_like(latents[0])] and the in-place additions cannot change its
    shape (a latent of another shape is broadcast into it, or the call
    raises). *)
Theorem barycentric_result_has_shape_of_first_latent
  (l0 : Tensor) (rest : list Tensor) (ws : list num) (t : Tensor) :
  barycentric_interpolation (l0 :: rest) ws = Ok t -> shape t = shape l0.
Proof.
  unfold barycentric_interpolation. intro H.
  destruct (check_weights _ ws _ _) as [[]|e]; [|discriminate H].
  cbn [obind] in H. exact (barycentric_loop_shape _ _ _ H).
Qed.

(** X9 on a latent of shape [(2, 2)] followed by one of shape [(1,)],
    which is broadcast into the first. *)
Lemma barycentric_result_has_shape_of_first_latent_example :
  exists t,
    barycentric_interpolation [square_latent; scalar_latent 3] weights_55 = Ok t /\
    shape t = shape square_latent.
Proof.
  assert (E : exists t, barycentric_interpolation [square_latent; scalar_latent 3]
                          weights_55 = Ok t).
  { unfold barycentric_interpolation.
    rewrite (check_weights_accept 2 weights_55) by exact accepted_weights_55.
    eexists. reflexivity. }
  destruct E as [t E]. exists t. split; [exact E|].
  exact (barycentric_result_has_shape_of_first_latent _ _ _ _ E).
Defined.

(** ** Preparing an image for the VAE *)

Lemma prepare_of_rank3 (img : Tensor) (h w c : nat) :
  shape img = [h; w; c] ->
  prepare img
  = Ok {| shape := [1; c; h; w]%nat;
          data := flat_map
                    (fun ch =>
                       map (fun i =>
                              nth (i * c + ch)
                                  (map (fun x => nsub (nmul x (Fin 2)) (Fin 1))
                                       (map (fun x => ndiv x (Fin 255)) (data img)))
                                  zero)
                           (seq 0 (h * w)))
                    (seq 0 c) |}.
Proof.
  intro S. unfold prepare, permute_201, tmap. cbn [shape data]. rewrite S. reflexivity.
Qed.

Lemma rescale_pixel (x : num) :
  pixel_value x -> unit_value (nsub (nmul (ndiv x (Fin 255)) (Fin 2)) (Fin 1)).
Proof.
  intros [r [-> Hr]]. rewrite ndiv_fin by lra.
  exists (r / 255 * 2 + - (1)). split; [reflexivity | lra].
Qed.

Lemma unit_value_zero : unit_value zero.
Proof. exists 0. split; [reflexivity | lra]. Qed.

(** X12: an image of shape [(H, W, C)] whose elements are pixel values
    between 0 and 255 is prepared into a well-formed tensor of shape
    [(1, C, H, W)] whose elements are all between -1 and 1. *)
Theorem prepare_scales_pixels (img : Tensor) (h w c : nat) :
  shape img = [h; w; c] ->
  Forall pixel_value (data img) ->
  exists t, prepare img = Ok t /\ shape t = [1; c; h; w]%nat /\ wf t /\
            Forall unit_value (data t).
Proof.
  intros S F. eexists. split; [apply (prepare_of_rank3 img h w c S)|].
  split; [reflexivity|]. split.
  - unfold wf. cbn [shape data numel fold_right].
    rewrite (length_flat_map_const _ (h * w)).
    + rewrite length_seq. lia.
    + intros ch _. rewrite length_map, length_seq. reflexivity.
  - cbn [data]. apply Forall_flat_map. apply Forall_forall. intros ch _.
    apply Forall_map. apply Forall_forall. intros i _.
    set (d := map _ (map _ (data img))).
    assert (Fd : Forall unit_value d).
    { unfold d. rewrite map_map. apply Forall_map.
      eapply Forall_impl; [|exact F]. intros x Hx. apply rescale_pixel. exact Hx. }
    destruct (nth_in_or_default (i * c + ch) d zero) as [Hin|E].
    + rewrite Forall_forall in Fd. apply Fd. exact Hin.
    + rewrite E. apply unit_value_zero.
Qed.

(** X12 on an image of 1 x 2 pixels with 3 channels. *)
Lemma prepare_scales_pixels_example :
  exists t, prepare two_pixels = Ok t /\ shape t = [1; 3; 1; 2]%nat /\ wf t /\
            Forall unit_value (data t).
Proof.
  apply (prepare_scales_pixels two_pixels 1 2 3).
  - reflexivity.
  - repeat constructor; eexists; (split; [reflexivity | lra]).
Defined.

Lemma permute_201_rejects (t : Tensor) :
  length (shape t) <> 3%nat ->
  permute_201 t = Raise (RuntimeError "permute: number of dims don't match").
Proof.
  intro H. unfold permute_201.
  destruct (shape t) as [|h [|w [|c [|x s]]]]; try reflexivity.
  exfalso. apply H. reflexivity.
Qed.

Lemma prepare_rejects (img : Tensor) :
  length (shape img) <> 3%nat ->
  prepare img = Raise (RuntimeError "permute: number of dims don't match").
Proof.
  intro H. unfold prepare. rewrite permute_201_rejects by exact H. reflexivity.
Qed.

Lemma encode_latent_rejects (img : Tensor) (w : world) :
  length (shape img) <> 3%nat ->
  encode_latent img w
  = (Raise (RuntimeError "permute: number of dims don't match"), w).
Proof.
  intro H. rewrite encode_latent_run. unfold latent_of, encode_events.
  rewrite (prepare_rejects img H). cbn [obind]. rewrite after_nil. reflexivity.
Qed.

(** X13: when the first image has not three axes (height, width,
    channels) and the weights are accepted, every [images_encoding*]
    function raises a [RuntimeError] without having called the VAE's
    encoder, and leaves the VAE in [float32]: the cast back to [float16] is
    not reached. *)
Theorem blends_raise_on_image_without_three_axes
  (img : Tensor) (rest : list Tensor) (ws : list num) (epsilon : num) (w : world) :
  accepted (length (img :: rest)) ws ->
  length (shape img) <> 3%nat ->
  exists msg,
    images_encoding (img :: rest) ws w
    = (Raise (RuntimeError msg), raised_world w []) /\
    images_encoding_slerp (img :: rest) ws w
    = (Raise (RuntimeError msg), raised_world w []) /\
    images_encoding_barycentric (img :: rest) ws w
    = (Raise (RuntimeError msg), raised_world w []) /\
    images_encoding_rbf (img :: rest) ws epsilon w
    = (Raise (RuntimeError msg), raised_world w []).
Proof.
  intros Hacc H3. eexists.
  assert (Hw : exists wt wr, ws = wt :: wr).
  { destruct Hacc as [L _]. destruct ws as [|wt wr]; [discriminate L|].
    exists wt, wr. reflexivity. }
  destruct Hw as [wt [wr ->]].
  repeat split.
  - rewrite images_encoding_accepted by exact Hacc. unfold raised_world.
    apply cast_body_raises. cbn [combine linear_loop]. unfold bind.
    rewrite (encode_latent_rejects img _ H3), after_nil. reflexivity.
  - rewrite images_encoding_slerp_accepted by exact Hacc. unfold raised_world.
    apply cast_body_raises. cbn [combine slerp_loop]. unfold bind.
    rewrite (encode_latent_rejects img _ H3), after_nil. reflexivity.
  - rewrite images_encoding_barycentric_accepted by exact Hacc. unfold raised_world.
    apply cast_body_raises. cbn [encode_all]. unfold bind.
    rewrite (encode_latent_rejects img _ H3), after_nil. reflexivity.
  - rewrite images_encoding_rbf_accepted by exact Hacc. unfold raised_world.
    apply cast_body_raises. cbn [encode_all]. unfold bind.
    rewrite (encode_latent_rejects img _ H3), after_nil. reflexivity.
Qed.

(** X13 on a grey-level image without a channel axis. *)
Lemma blends_raise_on_image_without_three_axes_example :
  exists msg,
    images_encoding [grey_image] [one] (start_world float16)
    = (Raise (RuntimeError msg), raised_world (start_world float16) []) /\
    images_encoding_slerp [grey_image] [one] (start_world float16)
    = (Raise (RuntimeError msg), raised_world (start_world float16) []) /\
    images_encoding_barycentric [grey_image] [one] (start_world float16)
    = (Raise (RuntimeError msg), raised_world (start_world float16) []) /\
    images_encoding_rbf [grey_image] [one] one (start_world float16)
    = (Raise (RuntimeError msg), raised_world (start_world float16) []).
Proof.
  apply (blends_raise_on_image_without_three_axes grey_image [] [one] one
           (start_world float16)).
  - apply accepted_one. reflexivity.
  - simpl. discriminate.
Defined.

(** ** The kernel of the RBF blend *)

Lemma Forall_firstn_keeps {A} (P : A -> Prop) (n : nat) (l : list A) :
  Forall P l -> Forall P (firstn n l).
Proof.
  intro H. revert n. induction H as [|x l Hx _ IH]; intros [|n]; simpl;
    constructor; auto.
Qed.

Lemma Forall_skipn_keeps {A} (P : A -> Prop) (n : nat) (l : list A) :
  Forall P l -> Forall P (skipn n l).
Proof.
  intro H. revert n. induction H as [|x l Hx Hl IH]; intros [|n]; simpl;
    try constructor; auto.
Qed.

Lemma chunks_finite (sz n : nat) (d : list num) :
  Forall finite d -> Forall (Forall finite) (chunks sz n d).
Proof.
  intro H. unfold chunks. apply Forall_map. apply Forall_forall. intros i _.
  apply Forall_firstn_keeps, Forall_skipn_keeps. exact H.
Qed.

Lemma fold_nonneg_ge (xs : list R) :
  Forall (fun x => 0 <= x) xs -> forall a, a <= fold_left Rplus xs a.
Proof.
  induction 1 as [|x xs Hx _ IH]; intro a; simpl; [lra|].
  specialize (IH (a + x)). lra.
Qed.

Lemma euclid_finite (a b : list num) :
  Forall finite a -> Forall finite b -> exists r, euclid a b = Fin r.
Proof.
  intros Fa Fb. destruct (finite_list a Fa) as [xs ->].
  destruct (finite_list b Fb) as [ys ->].
  assert (E : zip_with (fun x y => nsquare (nsub x y)) (map Fin xs) (map Fin ys)
              = map Fin (map2 (fun x y => (x + - y) * (x + - y)) xs ys)).
  { clear. revert ys. induction xs as [|x xs IH]; intros [|y ys]; try reflexivity.
    cbn [map zip_with map2]. rewrite IH. reflexivity. }
  unfold euclid. rewrite E, py_sum_fin. unfold nsqrt.
  rewrite Rlt_b_false; [eexists; reflexivity|].
  apply fold_nonneg_ge. clear. revert ys.
  induction xs as [|x xs IH]; intros [|y ys]; cbn [map2]; constructor.
  - pose proof (Rle_0_sqr (x + - y)) as H. unfold Rsqr in H. exact H.
  - apply IH.
Qed.

Lemma gaussian_kernel_value (e r : R) :
  kernel_value (gaussian (Fin e) (Fin r)) /\ positive (gaussian (Fin e) (Fin r)).
Proof.
  unfold gaussian, nexp, nneg, nsquare, nmul.
  set (x := e * r * (e * r)).
  assert (Hx : 0 <= x) by (unfold x; pose proof (Rle_0_sqr (e * r)) as H;
                           unfold Rsqr in H; exact H).
  pose proof (exp_pos (- x)) as Hp.
  assert (H1 : exp (- x) <= 1).
  { destruct (Req_dec_T x 0) as [->|N].
    - rewrite Ropp_0, exp_0. lra.
    - rewrite <- exp_0. left. apply exp_increasing. lra. }
  split; eexists; (split; [reflexivity | lra]).
Qed.

Lemma rbf_kernel_is_rows (d n : nat) (flat : list num) (epsilon : num) :
  rbf_kernel d n flat epsilon = concat (kernel_rows d n flat epsilon).
Proof.
  unfold rbf_kernel, kernel_rows. rewrite flat_map_concat_map, concat_map, map_map.
  f_equal. apply map_ext. intro a. rewrite map_map. reflexivity.
Qed.

Lemma kernel_rows_lengths (d n : nat) (flat : list num) (epsilon : num) :
  length (kernel_rows d n flat epsilon) = n /\
  Forall (fun r => length r = n) (kernel_rows d n flat epsilon).
Proof.
  unfold kernel_rows. split.
  - rewrite length_map. apply length_chunks.
  - apply Forall_map. apply Forall_forall. intros a _.
    rewrite length_map. apply length_chunks.
Qed.

Lemma kernel_rows_values (d n : nat) (flat : list num) (e : R) :
  Forall finite flat ->
  Forall (Forall (fun x => kernel_value x /\ positive x))
         (kernel_rows d n flat (Fin e)).
Proof.
  intro F. pose proof (chunks_finite d n flat F) as C. rewrite Forall_forall in C.
  unfold kernel_rows. apply Forall_map. apply Forall_forall. intros a Ha.
  apply Forall_map. apply Forall_forall. intros b Hb.
  destruct (euclid_finite a b (C a Ha) (C b Hb)) as [r ->].
  apply gaussian_kernel_value.
Qed.

Lemma chunks_rbf_kernel (d n : nat) (flat : list num) (epsilon : num) :
  chunks n n (rbf_kernel d n flat epsilon) = kernel_rows d n flat epsilon.
Proof.
  rewrite rbf_kernel_is_rows.
  destruct (kernel_rows_lengths d n flat epsilon) as [L F].
  rewrite <- L at 2. apply chunks_concat. exact F.
Qed.

Lemma nth_map_in {A B} (f : A -> B) (l : list A) (i : nat) (d : A) (d' : B) :
  (i < length l)%nat -> nth i (map f l) d' = f (nth i l d).
Proof.
  intro H. rewrite (nth_indep _ d' (f d)) by (rewrite length_map; exact H).
  apply map_nth.
Qed.

(** The entries of [rbf_kernel] on finite elements. *)
Lemma rbf_kernel_values (d n : nat) (flat : list num) (e : R) :
  Forall finite flat ->
  Forall kernel_value (rbf_kernel d n flat (Fin e)) /\
  (forall i, (i < n)%nat ->
     nth i (nth i (chunks n n (rbf_kernel d n flat (Fin e))) []) zero = one).
Proof.
  intro F. split.
  - rewrite rbf_kernel_is_rows. apply Forall_concat.
    eapply Forall_impl; [|apply (kernel_rows_values d n flat e F)].
    intros r Hr. eapply Forall_impl; [|exact Hr]. intros x [H _]. exact H.
  - intros i Hi. rewrite chunks_rbf_kernel. unfold kernel_rows.
    rewrite (nth_map_in _ _ i []) by (rewrite length_chunks; exact Hi).
    rewrite (nth_map_in _ _ i []) by (rewrite length_chunks; exact Hi).
    unfold gaussian. rewrite euclid_self; [apply gaussian_at_zero|].
    pose proof (chunks_finite d n flat F) as C. rewrite Forall_forall in C.
    apply C. apply nth_In. rewrite length_chunks. exact Hi.
Qed.

(** The first steps of [rbf_interpolation] on latents of one shape: the
    stack, its view as one row per latent and the distances between the
    rows are computed, and [gaussian_rbf(distances, epsilon)] is the square
    tensor of the elements [rbf_kernel]. *)
Lemma rbf_kernel_computed (l0 : Tensor) (rest : list Tensor) :
  Forall (fun l => shape l = shape l0) rest ->
  exists latent_stack flat distances,
    stack (l0 :: rest) = Ok latent_stack /\
    view_rows (length (l0 :: rest)) latent_stack = Ok flat /\
    cdist flat flat = Ok distances /\
    forall epsilon,
      gaussian_rbf distances epsilon
      = {| shape := [length (l0 :: rest); length (l0 :: rest)];
           data := rbf_kernel (numel (shape l0)) (length (l0 :: rest))
                     (flat_map data (l0 :: rest)) epsilon |}.
Proof.
  intro Hs. do 3 eexists.
  split; [apply stack_equal_shapes; exact Hs|].
  split; [apply view_rows_stacked; discriminate|].
  split.
  - unfold cdist. cbn [shape data]. rewrite Nat.eqb_refl. reflexivity.
  - intro epsilon. reflexivity.
Qed.

Lemma rows_square (n : nat) (k : list num) :
  rows {| shape := [n; n]; data := k |} = chunks n n k.
Proof.
  unfold rows. cbn [shape data last_dim last removelast numel fold_right].
  rewrite Nat.mul_1_r. reflexivity.
Qed.

Lemma finite_flat_map (ls : list Tensor) :
  Forall (fun l => Forall finite (data l)) ls -> Forall finite (flat_map data ls).
Proof.
  induction 1 as [|l ls Hl _ IH]; cbn [flat_map]; [constructor|].
  apply Forall_app. split; assumption.
Qed.

(** X14: for latents of one shape with finite elements and a finite
    epsilon, [torch.stack], [view(n, -1)] and [torch.cdist] return, and
    every entry of [gaussian_rbf(distances, epsilon)] is a real between 0
    and 1; the entries on the diagonal (a latent against itself) are 1. *)
Theorem gaussian_rbf_entries_in_unit_interval
  (l0 : Tensor) (rest : list Tensor) (e : R) :
  Forall (fun l => shape l = shape l0) rest ->
  Forall (fun l => Forall finite (data l)) (l0 :: rest) ->
  exists latent_stack flat distances,
    stack (l0 :: rest) = Ok latent_stack /\
    view_rows (length (l0 :: rest)) latent_stack = Ok flat /\
    cdist flat flat = Ok distances /\
    Forall kernel_value (data (gaussian_rbf distances (Fin e))) /\
    forall i, (i < length (l0 :: rest))%nat ->
      nth i (nth i (rows (gaussian_rbf distances (Fin e))) []) zero = one.
Proof.
  intros Hs Hf.
  destruct (rbf_kernel_computed l0 rest Hs) as [ls [fl [ds [H1 [H2 [H3 HK]]]]]].
  exists ls, fl, ds. rewrite HK, rows_square. cbn [data].
  destruct (rbf_kernel_values (numel (shape l0)) (length (l0 :: rest))
              (flat_map data (l0 :: rest)) e (finite_flat_map _ Hf)) as [V D].
  repeat split; assumption.
Qed.

(** X14 on the two latents [[1.0]] and [[3.0]] with epsilon 1. *)
Lemma gaussian_rbf_entries_in_unit_interval_example :
  exists latent_stack flat distances,
    stack [scalar_latent 1; scalar_latent 3] = Ok latent_stack /\
    view_rows 2 latent_stack = Ok flat /\
    cdist flat flat = Ok distances /\
    Forall kernel_value (data (gaussian_rbf distances (Fin 1))) /\
    forall i, (i < 2)%nat ->
      nth i (nth i (rows (gaussian_rbf distances (Fin 1))) []) zero = one.
Proof.
  apply (gaussian_rbf_entries_in_unit_interval (scalar_latent 1) [scalar_latent 3] 1).
  - repeat constructor.
  - repeat constructor; eexists; reflexivity.
Defined.

Lemma row_normalized_rows (n : nat) (rs : list (list num)) :
  Forall (fun r => length r = n) rs -> length rs = n ->
  row_normalized n (concat rs) = concat (map normalize_row rs).
Proof.
  intros F L. unfold row_normalized.
  rewrite <- L at 2. rewrite (chunks_concat n rs F).
  fold (spread n (map py_sum rs)).
  rewrite (zip_with_spread_r ndiv n rs F), map2_map_self. reflexivity.
Qed.

Lemma chunks_row_normalized (d n : nat) (flat : list num) (epsilon : num) :
  chunks n n (row_normalized n (rbf_kernel d n flat epsilon))
  = map normalize_row (kernel_rows d n flat epsilon).
Proof.
  destruct (kernel_rows_lengths d n flat epsilon) as [L F].
  rewrite rbf_kernel_is_rows, (row_normalized_rows n _ F L).
  rewrite <- L at 2. rewrite <- (length_map normalize_row).
  apply chunks_concat. apply Forall_map. eapply Forall_impl; [|exact F].
  intros r Hr. unfold normalize_row. rewrite length_map. exact Hr.
Qed.

Lemma fold_div_one (c : R) (ks : list R) : forall a,
  fold_left Rplus (map (fun k => k / c) ks) (a / c) = fold_left Rplus ks a / c.
Proof.
  induction ks as [|k ks IH]; intro a; simpl; [reflexivity|].
  rewrite <- IH. f_equal. unfold Rdiv. ring.
Qed.

(** ** The RBF blend of identical latents *)

Lemma map_repeat_const {A B} (f : A -> B) (x : A) (n : nat) :
  map f (repeat x n) = repeat (f x) n.
Proof. induction n as [|n IH]; simpl; [reflexivity | rewrite IH; reflexivity]. Qed.

Lemma flat_map_repeat {A B} (f : A -> list B) (x : A) (n : nat) :
  flat_map f (repeat x n) = concat (repeat (f x) n).
Proof. induction n as [|n IH]; simpl; [reflexivity | rewrite IH; reflexivity]. Qed.

Lemma Forall_repeat_const {A} (P : A -> Prop) (x : A) (n : nat) :
  P x -> Forall P (repeat x n).
Proof. intro H. induction n as [|n IH]; simpl; constructor; assumption. Qed.

Lemma nth_repeat_in {A} (x d : A) (n i : nat) :
  (i < n)%nat -> nth i (repeat x n) d = x.
Proof.
  revert i. induction n as [|n IH]; intros [|i] H; simpl; try lia; [reflexivity|].
  apply IH. lia.
Qed.

Lemma chunks_of_copies (d : list num) (n : nat) :
  chunks (length d) n (concat (repeat d n)) = repeat d n.
Proof.
  pose proof (chunks_concat (length d) (repeat d n)
                (Forall_repeat_const _ d n eq_refl)) as H.
  rewrite repeat_length in H. exact H.
Qed.

Lemma rsum_ones_positive (n : nat) : n <> 0%nat -> 0 < rsum (repeat 1 n).
Proof.
  intro H. destruct n as [|n]; [contradiction|]. unfold rsum. cbn [repeat fold_left].
  assert (G : 0 + 1 <= fold_left Rplus (repeat 1 n) (0 + 1)).
  { apply fold_nonneg_ge. apply Forall_repeat_const. lra. }
  lra.
Qed.

Lemma rsum_equal_shares (n : nat) :
  n <> 0%nat -> rsum (repeat (1 / rsum (repeat 1 n)) n) = 1.
Proof.
  intro H. pose proof (rsum_ones_positive n H) as P.
  set (S := rsum (repeat 1 n)) in *.
  rewrite <- (map_repeat_const (fun k => k / S) 1 n). unfold rsum.
  replace 0 with (0 / S) at 1 by (unfold Rdiv; ring).
  rewrite fold_div_one. fold (rsum (repeat 1 n)). fold S. field. lra.
Qed.

Lemma zip_with_maps {A} (f : num -> num -> num) (g h : A -> num) (l : list A) :
  zip_with f (map g l) (map h l) = map (fun x => f (g x) (h x)) l.
Proof.
  induction l as [|x l IH]; [reflexivity|].
  cbn [map zip_with]. rewrite IH. reflexivity.
Qed.

Lemma weighted_sum_of_copies (xs : list R) : forall (cs : list R) (a : R),
  fold_left (fun acc cl => zip_with nadd acc (map (nmul (fst cl)) (snd cl)))
            (combine (map Fin cs) (repeat (map Fin xs) (length cs)))
            (map (fun x => Fin (a * x)) xs)
  = map (fun x => Fin (fold_left Rplus cs a * x)) xs.
Proof.
  induction cs as [|c cs IH]; intro a; [reflexivity|].
  cbn [map length repeat combine fold_left fst snd].
  rewrite map_map, zip_with_maps.
  rewrite (map_ext (fun x => nadd (Fin (a * x)) (nmul (Fin c) (Fin x)))
                   (fun x => Fin ((a + c) * x)))
    by (intro x; unfold nadd, nmul; f_equal; ring).
  apply IH.
Qed.

Lemma map_zero_times (xs : list R) :
  map (fun x => Fin (0 * x)) xs = repeat zero (length xs).
Proof.
  induction xs as [|x xs IH]; [reflexivity|].
  cbn [map length repeat]. rewrite IH, Rmult_0_l. reflexivity.
Qed.

Lemma map_one_times (xs : list R) : map (fun x => Fin (1 * x)) xs = map Fin xs.
Proof. apply map_ext. intro x. rewrite Rmult_1_l. reflexivity. Qed.

Lemma kernel_rows_of_copies (d : list num) (n : nat) (e : R) :
  Forall finite d ->
  kernel_rows (length d) n (concat (repeat d n)) (Fin e) = repeat (repeat one n) n.
Proof.
  intro F. unfold kernel_rows. rewrite chunks_of_copies, !map_repeat_const.
  unfold gaussian. rewrite euclid_self by exact F. rewrite gaussian_at_zero.
  reflexivity.
Qed.

Lemma normalize_row_of_ones (n : nat) :
  n <> 0%nat ->
  normalize_row (repeat one n) = map Fin (repeat (1 / rsum (repeat 1 n)) n).
Proof.
  intro H. pose proof (rsum_ones_positive n H) as P.
  unfold normalize_row, one.
  rewrite <- (map_repeat_const Fin 1 n), py_sum_fin, map_map.
  rewrite (map_ext (fun x => ndiv (Fin x) (Fin (rsum (repeat 1 n))))
                   (fun x => Fin (x / rsum (repeat 1 n))))
    by (intro x; apply ndiv_fin; lra).
  rewrite !map_repeat_const. reflexivity.
Qed.

Lemma flat_map_const_seq {A} (d : list A) (n : nat) : forall a,
  flat_map (fun _ => d) (seq a n) = concat (repeat d n).
Proof.
  induction n as [|n IH]; intro a; simpl; [reflexivity | rewrite IH; reflexivity].
Qed.

Lemma rbf_elements_of_copies (xs : list R) (n : nat) (e : R) :
  n <> 0%nat ->
  rbf_elements (length (map Fin xs)) n (concat (repeat (map Fin xs) n)) (Fin e)
  = concat (repeat (map Fin xs) n).
Proof.
  intro H. unfold rbf_elements.
  rewrite chunks_row_normalized, chunks_of_copies.
  rewrite kernel_rows_of_copies
    by (apply Forall_map, Forall_forall; intros; eexists; reflexivity).
  rewrite map_repeat_const, (normalize_row_of_ones n H).
  rewrite <- (flat_map_const_seq (map Fin xs) n 0).
  apply flat_map_ext_on. intros j Hj. apply in_seq in Hj.
  rewrite map_repeat_const.
  rewrite (nth_map_in Fin _ j 0) by (rewrite repeat_length; lia).
  rewrite nth_repeat_in by lia.
  rewrite <- (map_repeat_const Fin (1 / rsum (repeat 1 n)) n).
  unfold weighted_sum. rewrite length_map, <- map_zero_times.
  pose proof (weighted_sum_of_copies xs (repeat (1 / rsum (repeat 1 n)) n) 0) as Hw.
  rewrite repeat_length in Hw. rewrite Hw.
  fold (rsum (repeat (1 / rsum (repeat 1 n)) n)).
  rewrite (rsum_equal_shares n H). apply map_one_times.
Qed.

(** X16: the RBF blend of two copies of a well-formed latent [L] with
    finite elements, with accepted weights and a finite epsilon, is the
    stack of the two copies: both of its slices are [L] (the distances are
    0, the kernel is [[1, 1], [1, 1]], the normalized weights are
    [[0.5, 0.5], [0.5, 0.5]]). *)
Theorem rbf_of_two_identical_latents (L : Tensor) (ws : list num) (e : R) :
  wf L -> Forall finite (data L) -> accepted 2 ws ->
  rbf_interpolation [L; L] ws (Fin e)
  = Ok {| shape := 2%nat :: shape L; data := data L ++ data L |}.
Proof.
  intros W F Hacc.
  rewrite rbf_interpolation_equal_shapes; [| repeat constructor | exact Hacc].
  cbn [length flat_map]. rewrite app_nil_r.
  destruct (finite_list (data L) F) as [xs E]. unfold wf in W. rewrite <- W, E.
  pose proof (rbf_elements_of_copies xs 2 e) as H.
  cbn [repeat concat] in H. rewrite app_nil_r in H.
  rewrite H by discriminate. reflexivity.
Qed.

(** X16 on two copies of a latent of shape [(2, 2)] with epsilon 1. *)
Lemma rbf_of_two_identical_latents_example :
  rbf_interpolation [square_latent; square_latent] weights_55 (Fin 1)
  = Ok {| shape := [2; 2; 2]%nat;
          data := data square_latent ++ data square_latent |}.
Proof.
  apply (rbf_of_two_identical_latents square_latent weights_55 1).
  - reflexivity.
  - repeat constructor; eexists; reflexivity.
  - exact accepted_weights_55.
Defined.

(** ** The order of two latents in the barycentric blend *)

Lemma nadd_comm (x y : num) : nadd x y = nadd y x.
Proof.
  destruct x as [a| | |], y as [b| | |]; unfold nadd; try reflexivity.
  f_equal. ring.
Qed.

Lemma zip_with_comm (f : num -> num -> num) :
  (forall x y, f x y = f y x) ->
  forall a b, zip_with f a b = zip_with f b a.
Proof.
  intros Hf a. induction a as [|x a IH]; intros [|y b]; try reflexivity.
  cbn [zip_with]. rewrite Hf, IH. reflexivity.
Qed.

(** The barycentric loop on well-formed latents of one shape: a fold on
    the elements. *)
Lemma barycentric_loop_data (s : list nat) (items : list (Tensor * num)) :
  Forall (fun it => wf (fst it) /\ shape (fst it) = s) items ->
  forall acc, wf acc -> shape acc = s ->
    barycentric_loop items acc
    = Ok {| shape := s;
            data := fold_left
                      (fun d it => zip_with nadd d
                                     (map (fun x => nmul x (snd it)) (data (fst it))))
                      items (data acc) |}.
Proof.
  induction 1 as [|[l wt] rest [Hw Hs] _ IH]; intros acc Wa Sa.
  - destruct acc as [sa da]. cbn in Sa. subst sa. reflexivity.
  - cbn [fst snd] in Hw, Hs. cbn [barycentric_loop fold_left fst snd].
    rewrite iadd_same; [|exact Wa|apply wf_tscale; exact Hw|cbn; congruence].
    cbn [obind]. rewrite IH.
    + rewrite Sa. reflexivity.
    + unfold wf in *. cbn [shape data tscale tmap].
      rewrite length_zip_with; [exact Wa|]. rewrite length_map. congruence.
    + exact Sa.
Qed.

(** X17: the barycentric blend of two well-formed latents of one shape
    does not depend on the order in which the two pairs of a latent and its
    weight are given: the outcome, a tensor or a failed assertion, is the
    same, whatever the weights. *)
Theorem barycentric_blend_of_two_ignores_order (a b : Tensor) (wa wb : num) :
  wf a -> wf b -> shape b = shape a ->
  barycentric_interpolation [a; b] [wa; wb]
  = barycentric_interpolation [b; a] [wb; wa].
Proof.
  intros Wa Wb S. unfold barycentric_interpolation, check_weights.
  assert (E : py_sum [wb; wa] = py_sum [wa; wb]).
  { unfold py_sum. cbn [fold_left]. rewrite !nadd_zero_l. apply nadd_comm. }
  rewrite E. cbn [length Nat.eqb assert_ obind].
  destruct (assert_ (isclose (py_sum [wa; wb]) one) "Weights must sum to 1.")
    as [[]|ex]; [|reflexivity].
  cbn [obind combine].
  rewrite (barycentric_loop_data (shape a) [(a, wa); (b, wb)]);
    [| repeat constructor; assumption | apply wf_zeros_like | reflexivity].
  rewrite (barycentric_loop_data (shape a) [(b, wb); (a, wa)]);
    [| repeat constructor; assumption | apply wf_zeros_like | exact S].
  f_equal. f_equal. cbn [fold_left fst snd]. unfold zeros_like. cbn [data].
  rewrite S.
  set (A := map (fun x => nmul x wa) (data a)).
  set (B := map (fun x => nmul x wb) (data b)).
  assert (LA : numel (shape a) = length A)
    by (unfold A; rewrite length_map; symmetry; exact Wa).
  assert (LB : numel (shape a) = length B)
    by (unfold B; rewrite length_map, <- S; symmetry; exact Wb).
  rewrite LA at 1. rewrite zip_with_zero_l.
  rewrite LB. rewrite zip_with_zero_l.
  apply (zip_with_comm nadd nadd_comm).
Qed.

(** X17 on the latents [[1.0, 0.0]] and [[0.0, 1.0]] with weights 0.3
    and 0.7, given in the two orders. *)
Lemma barycentric_blend_of_two_ignores_order_example :
  barycentric_interpolation [east; north] [Fin (3 / 10); Fin (7 / 10)]
  = barycentric_interpolation [north; east] [Fin (7 / 10); Fin (3 / 10)].
Proof.
  apply (barycentric_blend_of_two_ignores_order east north
           (Fin (3 / 10)) (Fin (7 / 10))).
  - reflexivity.
  - reflexivity.
  - reflexivity.
Defined.

(** ** The kernel is symmetric *)

Lemma nsquare_diff_sym (x y : num) : nsquare (nsub x y) = nsquare (nsub y x).
Proof.
  destruct x as [a| | |], y as [b| | |];
    unfold nsquare, nsub, nneg, nadd, nmul; try reflexivity.
  f_equal. ring.
Qed.

Lemma euclid_sym (a b : list num) : euclid a b = euclid b a.
Proof.
  unfold euclid.
  rewrite (zip_with_comm (fun x y => nsquare (nsub x y)) nsquare_diff_sym a b).
  reflexivity.
Qed.

(** The entries of [rbf_kernel] across the diagonal. *)
Lemma rbf_kernel_sym (d n : nat) (flat : list num) (epsilon : num) (i j : nat) :
  (i < n)%nat -> (j < n)%nat ->
  nth j (nth i (chunks n n (rbf_kernel d n flat epsilon)) []) zero
  = nth i (nth j (chunks n n (rbf_kernel d n flat epsilon)) []) zero.
Proof.
  intros Hi Hj. rewrite chunks_rbf_kernel. unfold kernel_rows.
  rewrite (nth_map_in _ _ i []) by (rewrite length_chunks; exact Hi).
  rewrite (nth_map_in _ _ j []) by (rewrite length_chunks; exact Hj).
  rewrite (nth_map_in _ _ j []) by (rewrite length_chunks; exact Hj).
  rewrite (nth_map_in _ _ i []) by (rewrite length_chunks; exact Hi).
  rewrite euclid_sym. reflexivity.
Qed.

(** X18: for latents of one shape and every epsilon, the kernel
    [gaussian_rbf(distances, epsilon)] of the RBF blend is symmetric: the
    entry of latent [i] against latent [j] is the entry of [j] against
    [i]. *)
Theorem gaussian_rbf_symmetric
  (l0 : Tensor) (rest : list Tensor) (epsilon : num) (i j : nat) :
  Forall (fun l => shape l = shape l0) rest ->
  (i < length (l0 :: rest))%nat -> (j < length (l0 :: rest))%nat ->
  exists latent_stack flat distances,
    stack (l0 :: rest) = Ok latent_stack /\
    view_rows (length (l0 :: rest)) latent_stack = Ok flat /\
    cdist flat flat = Ok distances /\
    nth j (nth i (rows (gaussian_rbf distances epsilon)) []) zero
    = nth i (nth j (rows (gaussian_rbf distances epsilon)) []) zero.
Proof.
  intros Hs Hi Hj.
  destruct (rbf_kernel_computed l0 rest Hs) as [ls [fl [ds [H1 [H2 [H3 HK]]]]]].
  exists ls, fl, ds. rewrite HK, rows_square.
  repeat split; try assumption.
  apply rbf_kernel_sym; assumption.
Qed.

(** X18 on the two latents [[1.0]] and [[3.0]] with epsilon 1. *)
Lemma gaussian_rbf_symmetric_example :
  exists latent_stack flat distances,
    stack [scalar_latent 1; scalar_latent 3] = Ok latent_stack /\
    view_rows 2 latent_stack = Ok flat /\
    cdist flat flat = Ok distances /\
    nth 1 (nth 0 (rows (gaussian_rbf distances one)) []) zero
    = nth 0 (nth 1 (rows (gaussian_rbf distances one)) []) zero.
Proof.
  apply (gaussian_rbf_symmetric (scalar_latent 1) [scalar_latent 3] one 0 1).
  - repeat constructor.
  - simpl. lia.
  - simpl. lia.
Defined.

(** ** Epsilon 0 *)

Lemma gaussian_epsilon_zero (r : R) : gaussian (Fin 0) (Fin r) = one.
Proof.
  unfold gaussian, nexp, nneg, nsquare, nmul, one. f_equal.
  replace (- (0 * r * (0 * r))) with 0 by ring. apply exp_0.
Qed.

Lemma map_const_repeat {A B} (c : B) (l : list A) :
  map (fun _ => c) l = repeat c (length l).
Proof. induction l as [|x l IH]; simpl; [reflexivity | rewrite IH; reflexivity]. Qed.

Lemma kernel_rows_epsilon_zero (d n : nat) (flat : list num) :
  Forall finite flat ->
  kernel_rows d n flat (Fin 0) = repeat (repeat one n) n.
Proof.
  intro F. pose proof (chunks_finite d n flat F) as C. rewrite Forall_forall in C.
  unfold kernel_rows.
  rewrite (map_ext_Forall (fun a => In a (chunks d n flat)) _
             (fun _ => repeat one n)).
  - rewrite map_const_repeat, length_chunks. reflexivity.
  - intros a Ha.
    rewrite (map_ext_Forall (fun b => In b (chunks d n flat)) _ (fun _ => one)).
    + rewrite map_const_repeat, length_chunks. reflexivity.
    + intros b Hb. destruct (euclid_finite a b (C a Ha) (C b Hb)) as [r ->].
      apply gaussian_epsilon_zero.
    + apply Forall_forall. auto.
  - apply Forall_forall. auto.
Qed.

(** The elements of the RBF blend when every kernel entry is 1: every
    slice is the sum of the latents with equal weights. *)
Lemma rbf_elements_uniform (d n : nat) (flat : list num) (epsilon : num) :
  n <> 0%nat ->
  kernel_rows d n flat epsilon = repeat (repeat one n) n ->
  rbf_elements d n flat epsilon
  = concat (repeat (weighted_sum d (repeat (Fin (1 / rsum (repeat 1 n))) n)
                                 (chunks d n flat)) n).
Proof.
  intros H K. unfold rbf_elements.
  rewrite chunks_row_normalized, K, map_repeat_const, (normalize_row_of_ones n H).
  rewrite <- (flat_map_const_seq _ n 0).
  apply flat_map_ext_on. intros j Hj. apply in_seq in Hj.
  rewrite map_repeat_const.
  rewrite (nth_map_in Fin _ j 0) by (rewrite repeat_length; lia).
  rewrite nth_repeat_in by lia. reflexivity.
Qed.

(** X19: with epsilon 0 and latents with finite elements, every slice of
    the RBF blend is the same tensor, the sum of the latents each weighted
    by [1/n]: the plain average, whatever the weights given. *)
Theorem rbf_with_epsilon_zero_averages
  (l0 : Tensor) (rest : list Tensor) (ws : list num) :
  Forall (fun l => shape l = shape l0) rest ->
  Forall (fun l => Forall finite (data l)) (l0 :: rest) ->
  accepted (length (l0 :: rest)) ws ->
  rbf_interpolation (l0 :: rest) ws (Fin 0)
  = Ok {| shape := length (l0 :: rest) :: shape l0;
          data := concat
                    (repeat
                       (weighted_sum (numel (shape l0))
                          (repeat (Fin (1 / rsum (repeat 1 (length (l0 :: rest)))))
                                  (length (l0 :: rest)))
                          (chunks (numel (shape l0)) (length (l0 :: rest))
                                  (flat_map data (l0 :: rest))))
                       (length (l0 :: rest))) |}.
Proof.
  intros Hs Hf Hacc. rewrite rbf_interpolation_equal_shapes by assumption.
  f_equal. f_equal. apply rbf_elements_uniform; [discriminate|].
  apply kernel_rows_epsilon_zero. rewrite flat_map_concat_map.
  apply Forall_concat. apply Forall_map. exact Hf.
Qed.

(** X19 on the latents [[1.0]] and [[3.0]]. *)
Lemma rbf_with_epsilon_zero_averages_example :
  rbf_interpolation [scalar_latent 1; scalar_latent 3] weights_37 (Fin 0)
  = Ok {| shape := [2; 1]%nat;
          data := concat
                    (repeat
                       (weighted_sum 1 (repeat (Fin (1 / rsum (repeat 1 2%nat))) 2)
                          (chunks 1 2 [Fin 1; Fin 3]))
                       2) |}.
Proof.
  apply (rbf_with_epsilon_zero_averages (scalar_latent 1) [scalar_latent 3]
           weights_37).
  - repeat constructor.
  - repeat constructor; eexists; reflexivity.
  - exact accepted_weights_37.
Defined.
